(** * TransformersSummarizer: batching and regrouping of summaries

    A shallow embedding of [haystack/nodes/summarizer/transformers.py]:
    the two entry points [predict] and [predict_batch] of the class
    [TransformersSummarizer], with the tokenizer and the HuggingFace
    summarization pipeline kept abstract as fields of the instance.

    Python effects are made explicit:
    - exceptions are an outcome [Raise e];
    - the instance attribute [self.print_log], the records handed to
      [logger.warning] and the calls made to the two collaborators are
      threaded through a state [World]. *)

From Stdlib Require Import ZArith Lia.
From stdpp Require Import base option list list_numbers strings gmap pretty.

Open Scope Z_scope.
Open Scope nat_scope.

(** ** Data model *)

(** Values stored under a metadata key (Python: [Any]). *)
Inductive meta_value :=
| MStr (s : string)
| MInt (z : Z)
| MBool (b : bool)
| MNone.

(** Modelled from the spec: the class [haystack.schema.Document] is imported
    by the source and not defined in it.  The spec describes a Document as a
    [content] text with a [metadata] mapping from strings to values, and the
    per-document path as updating a copy of the caller's mapping.  Documents
    are therefore values: building a result from [document.meta] and then
    updating it leaves the caller's document as it was. *)
Record Document := mkDocument {
  content : string;
  meta : gmap string meta_value;
}.

(** The keyword arguments [predict] and [predict_batch] pass to the pipeline
    ([return_text=True] and [truncation=True] are constant in both). *)
Record PipelineArgs := mkPipelineArgs {
  arg_min_length : Z;
  arg_max_length : Z;
  arg_clean_up_tokenization_spaces : bool;
  arg_batch_size : option Z;
}.

(** [self]: the attributes set by [__init__] that the two methods read.
    [tokenizer texts] stands for [self.summarizer.tokenizer(texts,
    verbose=False)["input_ids"]], [summarizer args texts] for the list of
    [summary_text] values the pipeline produces for [texts]. *)
Record TransformersSummarizer := mkSummarizer {
  tokenizer : list string → list (list Z);
  model_max_length : Z;
  summarizer : PipelineArgs → list string → list string;
  max_length : Z;
  min_length : Z;
  clean_up_tokenization_spaces : bool;
  separator_for_single_summary : string;
  generate_single_summary : bool;
  batch_size : Z;
  progress_bar : bool;
}.

(** Elements of the [documents] argument of [predict_batch].  Its annotation
    is [Union[List[Document], List[List[Document]]]]; the body inspects the
    elements with [isinstance], so the embedding keeps the dynamic tag. *)
Inductive Elem :=
| EDocument (doc : Document)
| ENotDocument.

Inductive Item :=
| IDocument (doc : Document)
| IList (docs : list Elem)
| IOther.

(** The two well-typed shapes of the annotation. *)
Definition FlatGroup (documents : list Document) : list Item :=
  IDocument <$> documents.

Definition GroupList (groups : list (list Document)) : list Item :=
  (λ docs, IList (EDocument <$> docs)) <$> groups.

(** What [predict_batch] appends to [result]: one Document
    ([cur_summaries[0]]) or a list of Documents ([cur_summaries]). *)
Inductive ResultEntry :=
| RDocument (doc : Document)
| RDocuments (docs : list Document).

(** ** Effects *)

Inductive exn :=
| AttributeError (msg : string)
| IndexError.

(** The two [AttributeError]s the source raises; the spec calls them
    InvalidConfiguration and InvalidInput. *)
Definition InvalidConfiguration : exn :=
  AttributeError "min_length cannot be greater than max_length".

Definition InvalidInput : exn :=
  AttributeError "Summarizer needs at least one document to produce a summary.".

Inductive Call :=
| TokenizerCall (texts : list string)
| SummarizerCall (args : PipelineArgs) (texts : list string).

Record World := mkWorld {
  print_log : gset string;     (* self.print_log *)
  logged : list string;        (* messages given to logger.warning, oldest first *)
  calls : list Call;           (* collaborator invocations, oldest first *)
}.

Definition initial_world : World :=
  {| print_log := ∅; logged := []; calls := [] |}.

Inductive Outcome (A : Type) :=
| Return (a : A)
| Raise (e : exn).
Arguments Return {A} a.
Arguments Raise {A} e.

Definition M (A : Type) : Type := World → Outcome A * World.

Global Instance M_ret : MRet M := λ A a w, (Return a, w).

Definition raise {A} (e : exn) : M A := λ w, (Raise e, w).

Global Instance M_bind : MBind M := λ A B k m w,
  match m w with
  | (Return a, w') => k a w'
  | (Raise e, w') => (Raise e, w')
  end.

Definition add_logged (msg : string) (w : World) : World :=
  {| print_log := print_log w; logged := logged w ++ [msg]; calls := calls w |}.

Definition add_print_log (msg : string) (w : World) : World :=
  {| print_log := {[msg]} ∪ print_log w; logged := logged w; calls := calls w |}.

Definition add_call (c : Call) (w : World) : World :=
  {| print_log := print_log w; logged := logged w; calls := calls w ++ [c] |}.

Definition pass : M unit := mret ().

(** [logger.warning(msg)] *)
Definition logger_warning (msg : string) : M unit :=
  λ w, (Return (), add_logged msg w).

(** [self.print_log.add(msg)] *)
Definition print_log_add (msg : string) : M unit :=
  λ w, (Return (), add_print_log msg w).

(** [msg in self.print_log] *)
Definition in_print_log (msg : string) : M bool :=
  λ w, (Return (bool_decide (msg ∈ print_log w)), w).

Definition record_call (c : Call) : M unit :=
  λ w, (Return (), add_call c w).

Definition pipeline_args (self : TransformersSummarizer) (batch : option Z)
  : PipelineArgs :=
  {| arg_min_length := min_length self;
     arg_max_length := max_length self;
     arg_clean_up_tokenization_spaces := clean_up_tokenization_spaces self;
     arg_batch_size := batch |}.

Definition call_tokenizer (self : TransformersSummarizer) (texts : list string)
  : M (list (list Z)) :=
  record_call (TokenizerCall texts) ;; mret (tokenizer self texts).

Definition call_summarizer (self : TransformersSummarizer)
    (batch : option Z) (texts : list string) : M (list string) :=
  let args := pipeline_args self batch in
  record_call (SummarizerCall args texts) ;; mret (summarizer self args texts).

(** [for x in xs: body(x)] *)
Fixpoint for_each {A} (xs : list A) (body : A → M unit) : M unit :=
  match xs with
  | [] => pass
  | x :: rest => body x ;; for_each rest body
  end.

(** ** Pure helpers *)

(** [sep.join(parts)] *)
Fixpoint str_join (sep : string) (parts : list string) : string :=
  match parts with
  | [] => ""
  | [s] => s
  | s :: rest => s +:+ sep +:+ str_join sep rest
  end.

(** [xs[left_idx:right_idx]] for indices that are not negative. *)
Definition slice {A} (xs : list A) (left_idx right_idx : nat) : list A :=
  take (right_idx - left_idx) (drop left_idx xs).

(** The advisory of lines 164-169 and 261-266. *)
Definition truncation_warning (self : TransformersSummarizer) : string :=
  "One or more of your input document texts is longer than the specified "
  +:+ "maximum sequence length for this summarizer model. "
  +:+ "Generating summary from first " +:+ pretty (model_max_length self)
  +:+ " tokens.".

Definition too_long (self : TransformersSummarizer) (input_id : list Z) : bool :=
  bool_decide (model_max_length self < Z.of_nat (length input_id))%Z.

(** ** predict *)

Definition predict_advise (self : TransformersSummarizer)
    (encoded_input : list (list Z)) : M unit :=
  for_each encoded_input (λ input_id,
    if too_long self input_id then
      in_print_log (truncation_warning self) ≫= λ seen : bool,
      if seen then pass
      else logger_warning (truncation_warning self) ;;
           print_log_add (truncation_warning self)
    else pass).

(** Lines 153-158: the spans [predict] submits. *)
Definition predict_contexts (self : TransformersSummarizer)
    (documents : list Document) (generate_single_summary : bool) : list string :=
  let contexts := content <$> documents in
  if generate_single_summary
  then [str_join (separator_for_single_summary self) contexts]
  else contexts.

(** Lines 183-195: the result Documents. *)
Definition predict_result (generate_single_summary : bool)
    (contexts summaries : list string) (documents : list Document) : list Document :=
  if generate_single_summary then
    (λ '(context, summarized_answer),
       {| content := summarized_answer;
          meta := {[ "context" := MStr context ]} |})
      <$> zip contexts summaries
  else
    (λ '(context, summarized_answer, document),
       {| content := summarized_answer;
          meta := <[ "context" := MStr context ]> (meta document) |})
      <$> zip (zip contexts summaries) documents.

Definition predict (self : TransformersSummarizer) (documents : list Document)
    (generate_single_summary_arg : option bool) : M (list Document) :=
  if bool_decide (max_length self < min_length self)%Z then raise InvalidConfiguration
  else if bool_decide (length documents = 0) then raise InvalidInput
  else
    let generate_single_summary :=
      default (generate_single_summary self) generate_single_summary_arg in
    let contexts := predict_contexts self documents generate_single_summary in
    encoded_input ← call_tokenizer self contexts;
    predict_advise self encoded_input ;;
    summaries ← call_summarizer self None contexts;
    mret (predict_result generate_single_summary contexts summaries documents).

(** ** predict_batch *)

Definition is_list (x : Item) : bool :=
  match x with IList _ => true | _ => false end.

Definition is_document (x : Item) : bool :=
  match x with IDocument _ => true | _ => false end.

(** Lines 220-222: the condition under which InvalidInput is raised. *)
Definition nothing_to_summarize (documents : list Item) : bool :=
  match documents with
  | [] => true
  | first :: _ =>
      is_list first &&
      forallb (λ docs, match docs with
                       | IList l => bool_decide (length l = 0)
                       | _ => true
                       end) documents
  end.

(** Lines 231-233: [isinstance(documents[0], Document)]. *)
Definition is_single_doc_list (documents : list Item) : bool :=
  match documents with
  | first :: _ => is_document first
  | [] => false
  end.

(** Line 236: [[doc.content for doc in documents if isinstance(doc, Document)]] *)
Definition flat_contents (documents : list Item) : list string :=
  omap (λ doc, match doc with IDocument d => Some (content d) | _ => None end)
       documents.

(** Lines 238-242. *)
Definition group_contents (docs : list Elem) : list string :=
  omap (λ doc, match doc with EDocument d => Some (content d) | _ => None end) docs.

Definition nested_contents (documents : list Item) : list (list string) :=
  omap (λ docs, match docs with IList l => Some (group_contents l) | _ => None end)
       documents.

(** Lines 244-255: the spans submitted to inference and [number_of_docs]. *)
Definition build_spans (self : TransformersSummarizer) (documents : list Item)
    (generate_single_summary single_doc_list : bool) : list string * list nat :=
  if generate_single_summary then
    let contexts :=
      if single_doc_list
      then [str_join (separator_for_single_summary self) (flat_contents documents)]
      else str_join (separator_for_single_summary self) <$> nested_contents documents in
    (contexts, (λ _, 1) <$> contexts)
  else
    if single_doc_list then
      let contexts := flat_contents documents in
      (contexts, (λ _, 1) <$> contexts)
    else
      let contexts := nested_contents documents in
      (mjoin contexts, length <$> contexts).

(** Lines 257-268: the loop leaves at the first span that is too long. *)
Fixpoint predict_batch_advise (self : TransformersSummarizer)
    (encoded_input : list (list Z)) : M unit :=
  match encoded_input with
  | [] => pass
  | input_id :: rest =>
      if too_long self input_id
      then logger_warning (truncation_warning self)
      else predict_batch_advise self rest
  end.

(** Lines 290-298: the loop state and one iteration. *)
Record Grouping := mkGrouping {
  grouped_summaries : list (list string);
  grouped_contexts : list (list string);
  left_idx : nat;
}.

Definition group_step (summaries contexts : list string)
    (st : Grouping) (number : nat) : Grouping :=
  let right_idx := left_idx st + number in
  {| grouped_summaries := grouped_summaries st ++ [slice summaries (left_idx st) right_idx];
     grouped_contexts := grouped_contexts st ++ [slice contexts (left_idx st) right_idx];
     left_idx := right_idx |}.

Definition group_summaries (number_of_docs : list nat)
    (summaries contexts : list string) : Grouping :=
  fold_left (group_step summaries contexts) number_of_docs
    {| grouped_summaries := []; grouped_contexts := []; left_idx := 0 |}.

(** Lines 302-305. *)
Definition cur_summaries (summary_group context_group : list string) : list Document :=
  (λ '(summary, context),
     {| content := summary; meta := {[ "context" := MStr context ]} |})
    <$> zip summary_group context_group.

(** Lines 306-309: what is appended to [result] for one group;
    [cur_summaries[0]] raises IndexError on an empty list. *)
Definition result_entry (single_doc_list : bool) (cur : list Document)
  : M ResultEntry :=
  if single_doc_list then
    match cur with
    | first :: _ => mret (RDocument first)
    | [] => raise IndexError
    end
  else mret (RDocuments cur).

(** Lines 300-309. *)
Fixpoint build_result (single_doc_list : bool)
    (groups : list (list string * list string)) : M (list ResultEntry) :=
  match groups with
  | [] => mret []
  | (summary_group, context_group) :: rest =>
      entry ← result_entry single_doc_list
                (cur_summaries summary_group context_group);
      result ← build_result single_doc_list rest;
      mret (entry :: result)
  end.

Definition predict_batch (self : TransformersSummarizer) (documents : list Item)
    (generate_single_summary_arg : option bool) (batch_size_arg : option Z)
  : M (list ResultEntry) :=
  if bool_decide (max_length self < min_length self)%Z then raise InvalidConfiguration
  else if nothing_to_summarize documents then raise InvalidInput
  else
    let batch_size := default (batch_size self) batch_size_arg in
    let generate_single_summary :=
      default (generate_single_summary self) generate_single_summary_arg in
    let single_doc_list := is_single_doc_list documents in
    let '(contexts, number_of_docs) :=
      build_spans self documents generate_single_summary single_doc_list in
    encoded_input ← call_tokenizer self contexts;
    predict_batch_advise self encoded_input ;;
    summaries ← call_summarizer self (Some batch_size) contexts;
    let g := group_summaries number_of_docs summaries contexts in
    build_result single_doc_list (zip (grouped_summaries g) (grouped_contexts g)).

(** ** Lifetime of an instance

    [self.print_log] outlives a call.  A lifetime is a sequence of calls to
    [predict] and [predict_batch] run one after the other on the same
    [World]; every call carries the attribute values in force when it is
    made, so that a tokenizer limit changed between two calls (and with it
    the text of the advisory) is covered. *)
Record PredictCall := mkPredictCall {
  call_self : TransformersSummarizer;
  call_documents : list Document;
  call_generate_single_summary : option bool;
}.

Inductive LifetimeCall :=
| ByPredict (c : PredictCall)
| ByPredictBatch (self : TransformersSummarizer) (documents : list Item)
    (generate_single_summary_arg : option bool) (batch_size_arg : option Z).

Definition run_predict (w : World) (c : PredictCall) : World :=
  (predict (call_self c) (call_documents c) (call_generate_single_summary c) w).2.

Definition run_call (w : World) (c : LifetimeCall) : World :=
  match c with
  | ByPredict c => run_predict w c
  | ByPredictBatch self documents gsa bsa =>
      (predict_batch self documents gsa bsa w).2
  end.

(** What a call appended to the log. *)
Definition new_entries (before after : World) : list string :=
  drop (length (logged before)) (logged after).

(** The log entries written by the [predict] calls of a lifetime. *)
Fixpoint predict_entries (cs : list LifetimeCall) (w : World) : list string :=
  match cs with
  | [] => []
  | ByPredict c :: rest =>
      new_entries w (run_predict w c) ++ predict_entries rest (run_predict w c)
  | c :: rest => predict_entries rest (run_call w c)
  end.

(** The call gets past both guards and at least one of its spans has more
    tokens than the tokenizer allows. *)
Definition predict_overflows (c : PredictCall) : bool :=
  let self := call_self c in
  negb (bool_decide (max_length self < min_length self)%Z) &&
  negb (bool_decide (length (call_documents c) = 0)) &&
  existsb (too_long self)
    (tokenizer self
       (predict_contexts self (call_documents c)
          (default (generate_single_summary self) (call_generate_single_summary c)))).

(** ** Properties read off the model *)

(** The contract of the inference engine: one summary per submitted span. *)
Definition engine_ok (self : TransformersSummarizer) : Prop :=
  ∀ args texts, length (summarizer self args texts) = length texts.

Definition config_ok (self : TransformersSummarizer) : Prop :=
  (min_length self ≤ max_length self)%Z.

(** [predict_batch] gets past both guards and at least one of its spans has
    more tokens than the tokenizer allows. *)
Definition predict_batch_overflows (self : TransformersSummarizer)
    (documents : list Item) (generate_single_summary_arg : option bool) : bool :=
  negb (bool_decide (max_length self < min_length self)%Z) &&
  negb (nothing_to_summarize documents) &&
  existsb (too_long self)
    (tokenizer self
       (build_spans self documents
          (default (generate_single_summary self) generate_single_summary_arg)
          (is_single_doc_list documents)).1).

(** The state [predict]'s advisory loop leaves behind. *)
Definition predict_advised (self : TransformersSummarizer)
    (encoded_input : list (list Z)) (w : World) : World :=
  if existsb (too_long self) encoded_input
     && negb (bool_decide (truncation_warning self ∈ print_log w))
  then add_print_log (truncation_warning self) (add_logged (truncation_warning self) w)
  else w.

(** The state [predict_batch]'s advisory loop leaves behind. *)
Definition predict_batch_advised (self : TransformersSummarizer)
    (encoded_input : list (list Z)) (w : World) : World :=
  if existsb (too_long self) encoded_input
  then add_logged (truncation_warning self) w
  else w.

(** A Result as [predict_batch] builds it. *)
Definition summary_document (summary context : string) : Document :=
  {| content := summary; meta := {[ "context" := MStr context ]} |}.

(** ** A concrete instance

    A tokenizer with one token per character and a limit of six tokens, and
    an engine that keeps the first two characters of every span. *)
Definition char_tokenizer (texts : list string) : list (list Z) :=
  (λ s, (λ a, Z.of_nat (Ascii.nat_of_ascii a)) <$> String.list_ascii_of_string s)
    <$> texts.

Definition prefix_engine (_ : PipelineArgs) (texts : list string) : list string :=
  String.substring 0 2 <$> texts.

Definition demo : TransformersSummarizer :=
  {| tokenizer := char_tokenizer;
     model_max_length := 6;
     summarizer := prefix_engine;
     max_length := 200;
     min_length := 5;
     clean_up_tokenization_spaces := true;
     separator_for_single_summary := " ";
     generate_single_summary := false;
     batch_size := 16;
     progress_bar := true |}.

(** The same instance with the generation bounds swapped. *)
Definition demo_bad_bounds : TransformersSummarizer :=
  {| tokenizer := char_tokenizer;
     model_max_length := 6;
     summarizer := prefix_engine;
     max_length := 5;
     min_length := 200;
     clean_up_tokenization_spaces := true;
     separator_for_single_summary := " ";
     generate_single_summary := false;
     batch_size := 16;
     progress_bar := true |}.

Definition doc_abc : Document :=
  {| content := "A. B. C."; meta := {[ "name" := MStr "first"; "context" := MInt 3 ]} |}.

Definition doc_def : Document :=
  {| content := "D. E. F."; meta := ∅ |}.

Definition doc_tiny : Document :=
  {| content := "tiny"; meta := {[ "page" := MInt 7 ]} |}.

(** ** Notions used to state further properties *)

(** The Documents of a list handed to [predict_batch], in order: what the
    [isinstance(doc, Document)] filter of line 236 lets through. *)
Definition documents_of (documents : list Item) : list Document :=
  omap (λ doc, match doc with IDocument d => Some d | _ => None end) documents.

(** The groups of a list handed to [predict_batch], each cut down to its
    Documents: what the two filters of lines 238-242 let through. *)
Definition group_documents (docs : list Elem) : list Document :=
  omap (λ doc, match doc with EDocument d => Some d | _ => None end) docs.

Definition groups_of (documents : list Item) : list (list Document) :=
  omap (λ docs, match docs with IList l => Some (group_documents l) | _ => None end)
       documents.

(** The Documents inside one entry of [predict_batch]'s result. *)
Definition entry_documents (entry : ResultEntry) : list Document :=
  match entry with
  | RDocument doc => [doc]
  | RDocuments docs => docs
  end.

(** A sequence of calls to either method, run on the same state. *)
Definition lifetime (cs : list LifetimeCall) (w : World) : World :=
  fold_left run_call cs w.

(** The instance with another tokenizer behind [self.summarizer.tokenizer]
    and another limit. *)
Definition with_tokenizer (self : TransformersSummarizer)
    (tok : list string → list (list Z)) (limit : Z) : TransformersSummarizer :=
  {| tokenizer := tok;
     model_max_length := limit;
     summarizer := summarizer self;
     max_length := max_length self;
     min_length := min_length self;
     clean_up_tokenization_spaces := clean_up_tokenization_spaces self;
     separator_for_single_summary := separator_for_single_summary self;
     generate_single_summary := generate_single_summary self;
     batch_size := batch_size self;
     progress_bar := progress_bar self |}.

(** An engine that loses the last span it is given. *)
Definition lossy_engine (_ : PipelineArgs) (texts : list string) : list string :=
  String.substring 0 2 <$> take (length texts - 1) texts.

Definition demo_lossy : TransformersSummarizer :=
  {| tokenizer := char_tokenizer;
     model_max_length := 6;
     summarizer := lossy_engine;
     max_length := 200;
     min_length := 5;
     clean_up_tokenization_spaces := true;
     separator_for_single_summary := " ";
     generate_single_summary := false;
     batch_size := 16;
     progress_bar := true |}.

(** * Proofs *)

(** ** Running the monad *)

Lemma run_bind {A B} (m : M A) (k : A → M B) w :
  (m ≫= k) w = match m w with
               | (Return a, w') => k a w'
               | (Raise e, w') => (Raise e, w')
               end.
Proof. reflexivity. Qed.

Lemma run_ret {A} (a : A) w : (mret a : M A) w = (Return a, w).
Proof. reflexivity. Qed.

Lemma run_pass w : pass w = (Return (), w).
Proof. reflexivity. Qed.

Lemma run_call_tokenizer self texts w :
  call_tokenizer self texts w
  = (Return (tokenizer self texts), add_call (TokenizerCall texts) w).
Proof. reflexivity. Qed.

Lemma run_call_summarizer self batch texts w :
  call_summarizer self batch texts w
  = (Return (summarizer self (pipeline_args self batch) texts),
     add_call (SummarizerCall (pipeline_args self batch) texts) w).
Proof. reflexivity. Qed.

(** ** The advisory loops *)

Lemma predict_advise_run self encoded_input w :
  predict_advise self encoded_input w
  = (Return (), predict_advised self encoded_input w).
Proof.
  unfold predict_advise, predict_advised.
  revert w. induction encoded_input as [|input_id rest IH]; intros w.
  - reflexivity.
  - cbn [for_each existsb]. rewrite run_bind.
    destruct (too_long self input_id) eqn:Hlong.
    + rewrite run_bind. unfold in_print_log at 1.
      destruct (bool_decide (truncation_warning self ∈ print_log w)) eqn:Hseen.
      * rewrite run_pass, IH, Hseen. by rewrite andb_false_r.
      * rewrite run_bind. unfold logger_warning at 1, print_log_add at 1.
        rewrite IH.
        assert (bool_decide (truncation_warning self ∈
                  print_log (add_print_log (truncation_warning self)
                               (add_logged (truncation_warning self) w))) = true) as ->.
        { apply bool_decide_eq_true. cbn. set_solver. }
        by rewrite andb_false_r.
    + rewrite run_pass. by rewrite IH.
Qed.

Lemma predict_batch_advise_run self encoded_input w :
  predict_batch_advise self encoded_input w
  = (Return (), predict_batch_advised self encoded_input w).
Proof.
  unfold predict_batch_advised.
  induction encoded_input as [|input_id rest IH]; [done|].
  cbn [predict_batch_advise existsb].
  destruct (too_long self input_id); [done|]. by rewrite IH.
Qed.

Lemma predict_advised_calls self enc w :
  calls (predict_advised self enc w) = calls w.
Proof. unfold predict_advised. by case_match. Qed.

Lemma predict_batch_advised_calls self enc w :
  calls (predict_batch_advised self enc w) = calls w.
Proof. unfold predict_batch_advised. by case_match. Qed.

(** ** predict, one equation for all its paths *)

Lemma predict_run self documents gsa w :
  predict self documents gsa w =
    if bool_decide (max_length self < min_length self)%Z
    then (Raise InvalidConfiguration, w)
    else if bool_decide (length documents = 0)
    then (Raise InvalidInput, w)
    else
      let gss := default (generate_single_summary self) gsa in
      let contexts := predict_contexts self documents gss in
      (Return (predict_result gss contexts
                 (summarizer self (pipeline_args self None) contexts) documents),
       add_call (SummarizerCall (pipeline_args self None) contexts)
         (predict_advised self (tokenizer self contexts)
            (add_call (TokenizerCall contexts) w))).
Proof.
  unfold predict.
  destruct (bool_decide (max_length self < min_length self)%Z); [done|].
  destruct (bool_decide (length documents = 0)); [done|].
  cbv zeta. rewrite run_bind, run_call_tokenizer.
  rewrite run_bind, predict_advise_run.
  by rewrite run_bind, run_call_summarizer.
Qed.

(** ** The grouping loop *)

Lemma slice_take_drop {A} (xs : list A) l n :
  slice xs l (l + n) = take n (drop l xs).
Proof. unfold slice. f_equal. lia. Qed.

Lemma group_loop_reshape number_of_docs summaries contexts st :
  let g := fold_left (group_step summaries contexts) number_of_docs st in
  grouped_summaries g
    = grouped_summaries st ++ reshape number_of_docs (drop (left_idx st) summaries)
  ∧ grouped_contexts g
    = grouped_contexts st ++ reshape number_of_docs (drop (left_idx st) contexts)
  ∧ left_idx g = left_idx st + sum_list number_of_docs.
Proof.
  revert st. induction number_of_docs as [|number rest IH]; intros st; cbn zeta.
  - cbn. rewrite !app_nil_r. auto with lia.
  - cbn [fold_left]. destruct (IH (group_step summaries contexts st number))
      as (Hs & Hc & Hl).
    rewrite Hs, Hc, Hl. cbn [group_step grouped_summaries grouped_contexts left_idx].
    rewrite !slice_take_drop, <-!app_assoc. cbn [reshape app sum_list_with].
    rewrite !drop_drop. unfold id. auto with lia.
Qed.

Lemma group_summaries_reshape number_of_docs summaries contexts :
  grouped_summaries (group_summaries number_of_docs summaries contexts)
    = reshape number_of_docs summaries
  ∧ grouped_contexts (group_summaries number_of_docs summaries contexts)
    = reshape number_of_docs contexts.
Proof.
  destruct (group_loop_reshape number_of_docs summaries contexts
              {| grouped_summaries := []; grouped_contexts := []; left_idx := 0 |})
    as (Hs & Hc & _).
  unfold group_summaries. by rewrite Hs, Hc.
Qed.

Lemma reshape_lookup {A} (szs : list nat) (l : list A) i :
  reshape szs l !! i
  = (λ n, take n (drop (sum_list (take i szs)) l)) <$> szs !! i.
Proof.
  revert l i. induction szs as [|sz szs IH]; intros l [|i]; try done.
  cbn [reshape lookup list_lookup]. rewrite IH. cbn [take sum_list_with].
  destruct (szs !! i); [|done]. cbn. by rewrite drop_drop.
Qed.

Lemma reshape_ones {A B} (l : list B) (xs : list A) :
  length xs = length l →
  reshape ((λ _, 1) <$> l) xs = (λ x, [x]) <$> xs.
Proof.
  revert xs. induction l as [|b l IH]; intros [|x xs] Hlen; try done.
  cbn. f_equal. rewrite drop_0. apply IH. by injection Hlen.
Qed.

Lemma reshape_lengths {A} (groups : list (list A)) :
  reshape (length <$> groups) (mjoin groups) = groups.
Proof.
  induction groups as [|g groups IH]; [done|].
  change (mjoin (g :: groups)) with (g ++ mjoin groups).
  rewrite fmap_cons. cbn [reshape].
  by rewrite take_app_length, drop_app_length, IH.
Qed.

(** ** Building the result *)

Lemma build_result_world single_doc_list groups w :
  (build_result single_doc_list groups w).2 = w.
Proof.
  revert w. induction groups as [|[sg cg] rest IH]; intros w; [done|].
  cbn [build_result]. rewrite run_bind. unfold result_entry.
  destruct single_doc_list.
  - destruct (cur_summaries sg cg) as [|first ?]; [done|].
    rewrite run_ret, run_bind. specialize (IH w).
    destruct (build_result true rest w) as [[res|e] w']; cbn in IH; by subst.
  - rewrite run_ret, run_bind. specialize (IH w).
    destruct (build_result false rest w) as [[res|e] w']; cbn in IH; by subst.
Qed.

Lemma build_result_lists groups w :
  build_result false groups w
  = (Return ((λ '(sg, cg), RDocuments (cur_summaries sg cg)) <$> groups), w).
Proof.
  induction groups as [|[sg cg] rest IH]; [done|].
  cbn [build_result]. rewrite run_bind. unfold result_entry.
  by rewrite run_ret, run_bind, IH.
Qed.

Lemma build_result_singletons summaries contexts w :
  build_result true (zip ((λ x, [x]) <$> summaries) ((λ x, [x]) <$> contexts)) w
  = (Return ((λ '(s, c), RDocument (summary_document s c)) <$> zip summaries contexts),
     w).
Proof.
  revert contexts.
  induction summaries as [|s summaries IH]; intros [|c contexts]; try done.
  rewrite !fmap_cons. cbn [zip_with build_result]. rewrite run_bind.
  unfold result_entry. cbn [cur_summaries zip_with fmap list_fmap].
  by rewrite run_ret, run_bind, IH.
Qed.

Lemma cur_summaries_lookup sg cg k :
  cur_summaries sg cg !! k
  = (λ '(s, c), summary_document s c) <$> zip sg cg !! k.
Proof. unfold cur_summaries. by rewrite list_lookup_fmap. Qed.

Lemma cur_summaries_length sg cg :
  length sg = length cg → length (cur_summaries sg cg) = length cg.
Proof.
  intros Hlen. unfold cur_summaries. rewrite length_fmap, length_zip_with. lia.
Qed.

(** ** predict_batch, one equation for all its paths *)

Lemma predict_batch_run self documents gsa bsa w :
  predict_batch self documents gsa bsa w =
    if bool_decide (max_length self < min_length self)%Z
    then (Raise InvalidConfiguration, w)
    else if nothing_to_summarize documents
    then (Raise InvalidInput, w)
    else
      let args := pipeline_args self (Some (default (batch_size self) bsa)) in
      let single := is_single_doc_list documents in
      let spans := build_spans self documents
                     (default (generate_single_summary self) gsa) single in
      let summaries := summarizer self args spans.1 in
      build_result single
        (zip (reshape spans.2 summaries) (reshape spans.2 spans.1))
        (add_call (SummarizerCall args spans.1)
           (predict_batch_advised self (tokenizer self spans.1)
              (add_call (TokenizerCall spans.1) w))).
Proof.
  unfold predict_batch.
  destruct (bool_decide (max_length self < min_length self)%Z); [done|].
  destruct (nothing_to_summarize documents); [done|].
  cbv zeta.
  destruct (build_spans self documents _ _) as [contexts number_of_docs].
  rewrite run_bind, run_call_tokenizer.
  rewrite run_bind, predict_batch_advise_run.
  rewrite run_bind, run_call_summarizer.
  destruct (group_summaries_reshape number_of_docs
              (summarizer self
                 (pipeline_args self (Some (default (batch_size self) bsa))) contexts)
              contexts) as [-> ->].
  reflexivity.
Qed.

(** ** The two well-typed shapes *)

Lemma flat_contents_FlatGroup ds : flat_contents (FlatGroup ds) = content <$> ds.
Proof.
  unfold flat_contents, FlatGroup.
  induction ds as [|d ds IH]; [done|]. cbn. by f_equal.
Qed.

Lemma group_contents_documents ds :
  group_contents (EDocument <$> ds) = content <$> ds.
Proof.
  unfold group_contents.
  induction ds as [|d ds IH]; [done|]. cbn. by f_equal.
Qed.

Lemma nested_contents_GroupList gs :
  nested_contents (GroupList gs) = (λ g : list Document, content <$> g) <$> gs.
Proof.
  unfold nested_contents, GroupList.
  induction gs as [|g gs IH]; [done|].
  cbn. rewrite group_contents_documents. by f_equal.
Qed.

Lemma single_doc_list_FlatGroup d ds :
  is_single_doc_list (FlatGroup (d :: ds)) = true.
Proof. reflexivity. Qed.

Lemma single_doc_list_GroupList gs : is_single_doc_list (GroupList gs) = false.
Proof. by destruct gs. Qed.

Lemma nothing_to_summarize_FlatGroup d ds :
  nothing_to_summarize (FlatGroup (d :: ds)) = false.
Proof. reflexivity. Qed.

Lemma all_empty_GroupList gs :
  forallb (λ docs, match docs with
                   | IList l => bool_decide (length l = 0)
                   | _ => true
                   end) (GroupList gs)
  = bool_decide (Forall (λ g, g = []) gs).
Proof.
  induction gs as [|g gs IH]; [done|].
  cbn [GroupList fmap list_fmap forallb]. unfold GroupList in IH. rewrite IH.
  destruct g as [|d g].
  - cbn. apply bool_decide_ext. split; [by constructor|by inversion 1].
  - rewrite fmap_cons, length_cons, (bool_decide_eq_false_2 (S _ = 0)) by lia.
    cbn [andb]. symmetry. apply bool_decide_eq_false. by inversion 1.
Qed.

Lemma nothing_to_summarize_GroupList gs :
  nothing_to_summarize (GroupList gs) = bool_decide (Forall (λ g, g = []) gs).
Proof.
  destruct gs as [|g gs]; [done|].
  unfold nothing_to_summarize.
  change (GroupList (g :: gs))
    with (IList (EDocument <$> g) :: GroupList gs) at 1.
  cbn [is_list andb]. apply all_empty_GroupList.
Qed.

(** ** What the engine contract gives *)

Lemma build_spans_sum self documents gss single :
  sum_list (build_spans self documents gss single).2
  = length (build_spans self documents gss single).1.
Proof.
  unfold build_spans. destruct gss, single; cbn [fst snd].
  - done.
  - rewrite sum_list_fmap_const. lia.
  - rewrite sum_list_fmap_const. lia.
  - by rewrite length_join.
Qed.

Lemma reshape_fmap_length {A} (szs : list nat) (l : list A) :
  sum_list szs ≤ length l → length <$> reshape szs l = szs.
Proof.
  revert l. induction szs as [|sz szs IH]; intros l Hsum; [done|].
  change (sum_list (sz :: szs)) with (sz + sum_list szs) in Hsum.
  cbn [reshape]. rewrite fmap_cons, length_take, IH.
  - f_equal. lia.
  - rewrite length_drop. lia.
Qed.

Lemma predict_result_length gss documents self :
  engine_ok self → documents ≠ [] →
  length (predict_result gss (predict_contexts self documents gss)
            (summarizer self (pipeline_args self None)
               (predict_contexts self documents gss)) documents)
  = if gss then 1 else length documents.
Proof.
  intros Hengine Hne. unfold predict_result.
  pose proof (Hengine (pipeline_args self None)
                (predict_contexts self documents gss)) as Hlen.
  destruct gss; rewrite length_fmap, !length_zip_with, Hlen.
  - cbn. lia.
  - unfold predict_contexts. rewrite length_fmap. lia.
Qed.

(** ** predict_batch on the two well-typed shapes *)

Lemma build_spans_FlatGroup self d ds gss :
  build_spans self (FlatGroup (d :: ds)) gss true
  = (predict_contexts self (d :: ds) gss,
     (λ _, 1) <$> predict_contexts self (d :: ds) gss).
Proof.
  unfold build_spans, predict_contexts. rewrite flat_contents_FlatGroup.
  by destruct gss.
Qed.

Lemma build_spans_GroupList self gs gss :
  build_spans self (GroupList gs) gss false
  = if gss
    then ((λ g : list Document,
             str_join (separator_for_single_summary self) (content <$> g)) <$> gs,
          (λ _, 1) <$> gs)
    else (mjoin ((λ g : list Document, content <$> g) <$> gs), length <$> gs).
Proof.
  unfold build_spans. rewrite nested_contents_GroupList.
  destruct gss; rewrite <-!list_fmap_compose; [done|].
  f_equal. apply list_fmap_ext. intros _ g _. cbn. by rewrite length_fmap.
Qed.

Lemma singleton_groups_documents (summaries contexts : list string) :
  (λ '(sg, cg), RDocuments (cur_summaries sg cg))
    <$> zip ((λ x, [x]) <$> summaries) ((λ x, [x]) <$> contexts)
  = (λ '(s, c), RDocuments [summary_document s c]) <$> zip summaries contexts.
Proof.
  revert contexts.
  induction summaries as [|s summaries IH]; intros [|c contexts]; try done.
  rewrite !fmap_cons. cbn [zip_with]. rewrite !fmap_cons, IH. done.
Qed.

Lemma predict_batch_FlatGroup self d ds gsa bsa w :
  engine_ok self → config_ok self →
  let contexts :=
    predict_contexts self (d :: ds) (default (generate_single_summary self) gsa) in
  let args := pipeline_args self (Some (default (batch_size self) bsa)) in
  predict_batch self (FlatGroup (d :: ds)) gsa bsa w
  = (Return ((λ '(s, c), RDocument (summary_document s c))
               <$> zip (summarizer self args contexts) contexts),
     add_call (SummarizerCall args contexts)
       (predict_batch_advised self (tokenizer self contexts)
          (add_call (TokenizerCall contexts) w))).
Proof.
  intros Hengine Hconfig. cbv zeta. unfold config_ok in Hconfig.
  rewrite predict_batch_run, bool_decide_eq_false_2 by lia.
  rewrite nothing_to_summarize_FlatGroup, single_doc_list_FlatGroup.
  cbv zeta. rewrite build_spans_FlatGroup. cbn [fst snd].
  rewrite !reshape_ones by (by rewrite ?Hengine).
  apply build_result_singletons.
Qed.

Lemma predict_batch_GroupList self gs gsa bsa w :
  config_ok self → ¬ Forall (λ g, g = []) gs →
  let spans := build_spans self (GroupList gs)
                 (default (generate_single_summary self) gsa) false in
  let args := pipeline_args self (Some (default (batch_size self) bsa)) in
  predict_batch self (GroupList gs) gsa bsa w
  = (Return ((λ '(sg, cg), RDocuments (cur_summaries sg cg))
               <$> zip (reshape spans.2 (summarizer self args spans.1))
                       (reshape spans.2 spans.1)),
     add_call (SummarizerCall args spans.1)
       (predict_batch_advised self (tokenizer self spans.1)
          (add_call (TokenizerCall spans.1) w))).
Proof.
  intros Hconfig Hsome. cbv zeta. unfold config_ok in Hconfig.
  rewrite predict_batch_run, bool_decide_eq_false_2 by lia.
  rewrite nothing_to_summarize_GroupList, bool_decide_eq_false_2 by done.
  rewrite single_doc_list_GroupList. cbv zeta.
  apply build_result_lists.
Qed.

Lemma calls_after_batch self contexts args w :
  calls (add_call (SummarizerCall args contexts)
           (predict_batch_advised self (tokenizer self contexts)
              (add_call (TokenizerCall contexts) w)))
  = calls w ++ [TokenizerCall contexts; SummarizerCall args contexts].
Proof.
  cbn [calls add_call]. rewrite predict_batch_advised_calls. cbn [calls add_call].
  by rewrite <-app_assoc.
Qed.

Lemma calls_after_predict self contexts args w :
  calls (add_call (SummarizerCall args contexts)
           (predict_advised self (tokenizer self contexts)
              (add_call (TokenizerCall contexts) w)))
  = calls w ++ [TokenizerCall contexts; SummarizerCall args contexts].
Proof.
  cbn [calls add_call]. rewrite predict_advised_calls. cbn [calls add_call].
  by rewrite <-app_assoc.
Qed.

Lemma engine_single self args text :
  engine_ok self → ∃ summary, summarizer self args [text] = [summary].
Proof.
  intros Hengine. pose proof (Hengine args [text]) as Hlen.
  destruct (summarizer self args [text]) as [|summary [|? ?]]; try done.
  by exists summary.
Qed.

Lemma predict_batch_GroupList_merged self gs gsa bsa w :
  engine_ok self → config_ok self →
  default (generate_single_summary self) gsa = true →
  ¬ Forall (λ g, g = []) gs →
  let joined :=
    (λ g : list Document,
       str_join (separator_for_single_summary self) (content <$> g)) <$> gs in
  let args := pipeline_args self (Some (default (batch_size self) bsa)) in
  predict_batch self (GroupList gs) gsa bsa w
  = (Return ((λ '(s, c), RDocuments [summary_document s c])
               <$> zip (summarizer self args joined) joined),
     add_call (SummarizerCall args joined)
       (predict_batch_advised self (tokenizer self joined)
          (add_call (TokenizerCall joined) w))).
Proof.
  intros Hengine Hconfig Hmerged Hsome. cbv zeta.
  rewrite predict_batch_GroupList by done. rewrite Hmerged.
  rewrite build_spans_GroupList. cbn [fst snd].
  rewrite !reshape_ones by (by rewrite ?Hengine, !length_fmap).
  by rewrite singleton_groups_documents.
Qed.

Lemma predict_batch_GroupList_per_document self gs gsa bsa w :
  config_ok self →
  default (generate_single_summary self) gsa = false →
  ¬ Forall (λ g, g = []) gs →
  let contexts := (λ g : list Document, content <$> g) <$> gs in
  let args := pipeline_args self (Some (default (batch_size self) bsa)) in
  predict_batch self (GroupList gs) gsa bsa w
  = (Return ((λ '(sg, cg), RDocuments (cur_summaries sg cg))
               <$> zip (reshape (length <$> gs)
                          (summarizer self args (mjoin contexts)))
                       contexts),
     add_call (SummarizerCall args (mjoin contexts))
       (predict_batch_advised self (tokenizer self (mjoin contexts))
          (add_call (TokenizerCall (mjoin contexts)) w))).
Proof.
  intros Hconfig Hmode Hsome. cbv zeta.
  rewrite predict_batch_GroupList by done. rewrite Hmode.
  rewrite build_spans_GroupList. cbn [fst snd].
  replace (length <$> gs)
    with (length <$> ((λ g : list Document, content <$> g) <$> gs)).
  - by rewrite (reshape_lengths ((λ g : list Document, content <$> g) <$> gs)).
  - rewrite <-list_fmap_compose. apply list_fmap_ext.
    intros _ g _. cbn. by rewrite length_fmap.
Qed.

Lemma reshape_lookup_length {A} (szs : list nat) (l : list A) i n :
  sum_list szs ≤ length l → szs !! i = Some n →
  ∃ g, reshape szs l !! i = Some g ∧ length g = n.
Proof.
  intros Hsum Hi.
  pose proof (reshape_fmap_length szs l Hsum) as Hlen.
  apply (f_equal (λ x, x !! i)) in Hlen.
  rewrite list_lookup_fmap, Hi in Hlen.
  destruct (reshape szs l !! i) as [g|]; [|done].
  exists g. split; [done|]. by injection Hlen.
Qed.

(** ** Metadata of the results *)

(** Per-document mode of [predict]: result [i] has the metadata of input
    document [i] with [context] set to that document's content. *)
Lemma predict_keeps_document_metadata self documents gsa w i r :
  default (generate_single_summary self) gsa = false →
  (∃ result, (predict self documents gsa w).1 = Return result
             ∧ result !! i = Some r) →
  ∃ d, documents !! i = Some d
       ∧ meta r = <[ "context" := MStr (content d) ]> (meta d)
       ∧ meta r !! "context" = Some (MStr (content d))
       ∧ ∀ key, key ≠ "context" → meta r !! key = meta d !! key.
Proof.
  intros Hmode (result & Hrun & Hi). rewrite predict_run in Hrun.
  destruct (bool_decide (max_length self < min_length self)%Z); [done|].
  destruct (bool_decide (length documents = 0)); [done|].
  cbv zeta in Hrun. rewrite Hmode in Hrun. cbn [fst] in Hrun.
  injection Hrun as <-. unfold predict_result, predict_contexts in Hi.
  rewrite list_lookup_fmap in Hi.
  destruct (zip _ documents !! i) as [[[context summary] d]|] eqn:Hzip; [|done].
  injection Hi as <-.
  apply lookup_zip_with_Some in Hzip as (cs & d' & Heq & Hcs & Hd).
  injection Heq as <- <-.
  apply lookup_zip_with_Some in Hcs as (c & s & Heq & Hc & _).
  injection Heq as <- <-.
  rewrite list_lookup_fmap, Hd in Hc. injection Hc as <-.
  exists d. cbn [meta]. split; [done|]. split; [done|]. split.
  - apply lookup_insert_eq.
  - intros key Hkey. by apply lookup_insert_ne.
Qed.

(** Whatever the mode, a Document built by [predict_batch] for a group has
    [context] as its only metadata field. *)
Lemma cur_summaries_metadata sg cg r :
  r ∈ cur_summaries sg cg → ∃ context, meta r = {[ "context" := MStr context ]}.
Proof.
  unfold cur_summaries. intros ([s c] & -> & _)%list_elem_of_fmap. by exists c.
Qed.

(** ** The advisory over calls *)

Lemma predict_log self documents gsa w :
  let m := truncation_warning self in
  let over := predict_overflows (mkPredictCall self documents gsa) in
  logged (predict self documents gsa w).2
    = logged w ++ (if over && negb (bool_decide (m ∈ print_log w)) then [m] else [])
  ∧ print_log (predict self documents gsa w).2
    = if over then {[m]} ∪ print_log w else print_log w.
Proof.
  cbv zeta. unfold predict_overflows. cbn [call_self call_documents
    call_generate_single_summary]. rewrite predict_run.
  destruct (bool_decide (max_length self < min_length self)%Z);
    [by rewrite app_nil_r|].
  destruct (bool_decide (length documents = 0)); [by rewrite app_nil_r|].
  cbv zeta. cbn [negb andb snd logged print_log add_call].
  unfold predict_advised. cbn [print_log add_call].
  destruct (existsb _ _); cbn [andb]; [|by rewrite app_nil_r].
  destruct (bool_decide (truncation_warning self ∈ print_log w)) eqn:Hseen;
    cbn [negb logged print_log add_call add_logged add_print_log].
  - rewrite app_nil_r. split; [done|].
    apply bool_decide_eq_true in Hseen. set_solver.
  - done.
Qed.

Lemma predict_batch_log self documents gsa bsa w :
  logged (predict_batch self documents gsa bsa w).2
    = logged w ++ (if predict_batch_overflows self documents gsa
                   then [truncation_warning self] else [])
  ∧ print_log (predict_batch self documents gsa bsa w).2 = print_log w.
Proof.
  unfold predict_batch_overflows. rewrite predict_batch_run.
  destruct (bool_decide (max_length self < min_length self)%Z);
    [by rewrite app_nil_r|].
  destruct (nothing_to_summarize documents); [by rewrite app_nil_r|].
  cbv zeta. rewrite build_result_world.
  cbn [negb andb logged print_log add_call]. unfold predict_batch_advised.
  destruct (existsb _ _); [done|by rewrite app_nil_r].
Qed.

Lemma new_entries_app w w' new :
  logged w' = logged w ++ new → new_entries w w' = new.
Proof. intros Hlog. unfold new_entries. by rewrite Hlog, drop_app_length. Qed.

(** From any state on, the [predict] calls of a lifetime log no text twice,
    and log a text exactly when it is not yet remembered and some [predict]
    call with that advisory has a span that is too long. *)
Lemma predict_entries_deduplicated cs w :
  NoDup (predict_entries cs w)
  ∧ ∀ m, m ∈ predict_entries cs w
         ↔ m ∉ print_log w
           ∧ ∃ c, ByPredict c ∈ cs ∧ predict_overflows c = true
                  ∧ truncation_warning (call_self c) = m.
Proof.
  revert w. induction cs as [|[c|self documents gsa bsa] cs IH]; intros w.
  - split; [apply NoDup_nil_2|]. intros m. split.
    + by intros ?%elem_of_nil.
    + intros (_ & c & Hc%elem_of_nil & _). done.
  - destruct (IH (run_predict w c)) as [Hnodup Hrest].
    destruct c as [self documents gsa]. cbn [predict_entries].
    destruct (predict_log self documents gsa w) as [Hlog Hset].
    cbv zeta in Hlog, Hset. unfold run_predict in *.
    cbn [call_self call_documents call_generate_single_summary] in *.
    rewrite (new_entries_app _ _ _ Hlog).
    set (c := mkPredictCall self documents gsa) in *.
    assert (∀ m, (∃ c', ByPredict c' ∈ ByPredict c :: cs
                        ∧ predict_overflows c' = true
                        ∧ truncation_warning (call_self c') = m)
                 ↔ (predict_overflows c = true ∧ truncation_warning self = m)
                   ∨ ∃ c', ByPredict c' ∈ cs ∧ predict_overflows c' = true
                           ∧ truncation_warning (call_self c') = m) as Hcases.
    { intros m. split.
      - intros (c' & [Heq|Hin]%elem_of_cons & Hover & Hm).
        + injection Heq as ->. by left.
        + right. by exists c'.
      - intros [[Hover Hm]|(c' & Hin & Hover & Hm)].
        + exists c. split; [apply list_elem_of_here|done].
        + exists c'. split; [by apply list_elem_of_further|done]. }
    destruct (predict_overflows c) eqn:Hover; cbn [andb] in *.
    + destruct (bool_decide (truncation_warning self ∈ print_log w)) eqn:Hseen;
        cbn [negb] in *.
      * apply bool_decide_eq_true in Hseen. rewrite app_nil_l.
        split; [exact Hnodup|]. intros m. rewrite Hrest, Hset, Hcases.
        split.
        -- intros [Hm ?]. split; [|by right]. clear -Hm. set_solver.
        -- intros [Hm [[_ <-]|?]]; [done|]. split; [|done].
           clear -Hm Hseen. set_solver.
      * apply bool_decide_eq_false in Hseen. split.
        -- apply NoDup_cons. split; [|exact Hnodup].
           rewrite Hrest, Hset. intros [Hm _]. clear -Hm. set_solver.
        -- intros m. cbn [app]. rewrite elem_of_cons, Hrest, Hset, Hcases.
           split.
           ++ intros [->|[Hm ?]]; [split; [done|by left]|].
              split; [|by right]. clear -Hm. set_solver.
           ++ intros [Hm [[_ <-]|?]]; [by left|].
              destruct (decide (m = truncation_warning self)) as [->|Hne];
                [by left|right]. split; [|done]. clear -Hm Hne. set_solver.
    + rewrite app_nil_l. split; [exact Hnodup|].
      intros m. rewrite Hrest, Hset, Hcases. split.
      * intros [Hm ?]. split; [done|by right].
      * intros [Hm [[? _]|?]]; [done|]. by split.
  - destruct (IH (run_call w (ByPredictBatch self documents gsa bsa)))
      as [Hnodup Hrest].
    cbn [predict_entries]. split; [exact Hnodup|].
    intros m. rewrite Hrest. cbn [run_call].
    rewrite (proj2 (predict_batch_log self documents gsa bsa w)).
    split; intros [Hm (c & Hc & Hover)]; (split; [done|]); exists c.
    + split; [by apply list_elem_of_further|done].
    + apply elem_of_cons in Hc as [?|?]; [done|]. done.
Qed.

Lemma predict_batch_returns self documents gsa bsa w :
  engine_ok self → config_ok self → nothing_to_summarize documents = false →
  ∃ entries, (predict_batch self documents gsa bsa w).1 = Return entries.
Proof.
  intros Hengine Hconfig Hinput. unfold config_ok in Hconfig.
  rewrite predict_batch_run, bool_decide_eq_false_2 by lia.
  rewrite Hinput. cbv zeta.
  destruct (is_single_doc_list documents) eqn:Hsingle.
  - set (spans := build_spans self documents _ true).
    assert (spans.2 = (λ _, 1) <$> spans.1) as ->
      by (unfold spans, build_spans; by destruct (default _ gsa)).
    rewrite !reshape_ones by (by rewrite ?Hengine).
    rewrite build_result_singletons. by eexists.
  - rewrite build_result_lists. by eexists.
Qed.

(** * The claims *)

(** C1.  For every input that [predict_batch] accepts, the per-group span
    counts [number_of_docs] add up to the number of spans [contexts] handed
    to the tokenizer and to the inference engine, the engine returns as many
    summaries, and the grouping loop hands out exactly those summaries, each
    group receiving as many as its recorded count. *)
Theorem span_counts_match_spans_and_summaries self documents gsa bsa w :
  engine_ok self → config_ok self → nothing_to_summarize documents = false →
  let spans := build_spans self documents
                 (default (generate_single_summary self) gsa)
                 (is_single_doc_list documents) in
  let contexts := spans.1 in
  let number_of_docs := spans.2 in
  let args := pipeline_args self (Some (default (batch_size self) bsa)) in
  let summaries := summarizer self args contexts in
  let g := group_summaries number_of_docs summaries contexts in
  calls (predict_batch self documents gsa bsa w).2
    = calls w ++ [TokenizerCall contexts; SummarizerCall args contexts]
  ∧ sum_list number_of_docs = length contexts
  ∧ length contexts = length summaries
  ∧ length <$> grouped_summaries g = number_of_docs
  ∧ mjoin (grouped_summaries g) = summaries.
Proof.
  intros Hengine Hconfig Hinput. cbv zeta.
  set (spans := build_spans self documents _ _).
  set (args := pipeline_args self _).
  pose proof (build_spans_sum self documents
                (default (generate_single_summary self) gsa)
                (is_single_doc_list documents)) as Hsum.
  fold spans in Hsum.
  pose proof (Hengine args spans.1) as Hlen.
  destruct (group_summaries_reshape spans.2 (summarizer self args spans.1) spans.1)
    as [-> _].
  split; [|repeat split].
  - rewrite predict_batch_run, Hinput.
    rewrite bool_decide_eq_false_2 by (unfold config_ok in Hconfig; lia).
    cbv zeta. rewrite build_result_world. cbn [calls add_call].
    rewrite predict_batch_advised_calls. cbn [calls add_call].
    by rewrite <-app_assoc.
  - exact Hsum.
  - by rewrite Hlen.
  - apply reshape_fmap_length. lia.
  - apply join_reshape. lia.
Qed.

Lemma span_counts_match_spans_and_summaries_witness :
  let documents := GroupList [[doc_abc; doc_def]; []; [doc_tiny]] in
  let spans := build_spans demo documents false false in
  let args := pipeline_args demo (Some 16%Z) in
  calls (predict_batch demo documents None None initial_world).2
    = [TokenizerCall spans.1; SummarizerCall args spans.1]
  ∧ sum_list spans.2 = 3
  ∧ 3 = length (summarizer demo args spans.1)
  ∧ length <$> grouped_summaries
                 (group_summaries spans.2 (summarizer demo args spans.1) spans.1)
    = [2; 0; 1]
  ∧ mjoin (grouped_summaries
             (group_summaries spans.2 (summarizer demo args spans.1) spans.1))
    = ["A."; "D."; "ti"].
Proof.
  apply (span_counts_match_spans_and_summaries demo
           (GroupList [[doc_abc; doc_def]; []; [doc_tiny]]) None None initial_world).
  - intros args texts. apply length_fmap.
  - unfold config_ok. cbn. lia.
  - reflexivity.
Defined.

(** C2.  The grouping loop cuts the flat lists at the running sums of
    [number_of_docs].  For every group [i], a group with count zero included,
    the summaries and the spans it receives are the slices from [offset] to
    [offset + number_of_docs[i]], where [offset] is the sum of the counts
    before [i], and there are as many groups as counts.  Inside a group of
    count [n], the [k]-th summary and the [k]-th span are the flat entries at
    [offset + k] for [k < n], and they are the two that end up in the [k]-th
    Document built for the group; from [n] on the group holds nothing.  In
    per-document mode the span groups cut out this way are the groups' own
    span lists. *)
Theorem regroup_by_cumulative_boundaries
    (number_of_docs : list nat) (summaries contexts : list string) i :
  let g := group_summaries number_of_docs summaries contexts in
  let offset := sum_list (take i number_of_docs) in
  grouped_summaries g !! i
    = (λ n, slice summaries offset (offset + n)) <$> number_of_docs !! i
  ∧ grouped_contexts g !! i
    = (λ n, slice contexts offset (offset + n)) <$> number_of_docs !! i
  ∧ (∀ n k,
       number_of_docs !! i = Some n → k < n →
       slice summaries offset (offset + n) !! k = summaries !! (offset + k)
       ∧ slice contexts offset (offset + n) !! k = contexts !! (offset + k)
       ∧ cur_summaries (slice summaries offset (offset + n))
                       (slice contexts offset (offset + n)) !! k
         = (λ '(summary, context), summary_document summary context)
             <$> zip summaries contexts !! (offset + k))
  ∧ (∀ n k,
       number_of_docs !! i = Some n → n ≤ k →
       slice summaries offset (offset + n) !! k = None
       ∧ slice contexts offset (offset + n) !! k = None
       ∧ cur_summaries (slice summaries offset (offset + n))
                       (slice contexts offset (offset + n)) !! k = None)
  ∧ ∀ groups : list (list string),
      grouped_contexts (group_summaries (length <$> groups) summaries (mjoin groups))
      = groups.
Proof.
  cbv zeta.
  destruct (group_summaries_reshape number_of_docs summaries contexts) as [-> ->].
  rewrite !reshape_lookup.
  split; [|split; [|split; [|split]]].
  - destruct (number_of_docs !! i) as [n|]; [|done].
    cbn [fmap option_fmap option_map]. by rewrite slice_take_drop.
  - destruct (number_of_docs !! i) as [n|]; [|done].
    cbn [fmap option_fmap option_map]. by rewrite slice_take_drop.
  - intros n k _ Hk. rewrite !slice_take_drop.
    assert (∀ xs : list string,
              take n (drop (sum_list (take i number_of_docs)) xs) !! k
              = xs !! (sum_list (take i number_of_docs) + k)) as Hslice.
    { intros xs. by rewrite lookup_take_lt, lookup_drop. }
    split; [apply Hslice|]. split; [apply Hslice|].
    by rewrite cur_summaries_lookup, !lookup_zip_with, !Hslice.
  - intros n k _ Hk. rewrite !slice_take_drop.
    assert (∀ xs : list string,
              take n (drop (sum_list (take i number_of_docs)) xs) !! k = None)
      as Hslice.
    { intros xs. by apply lookup_take_ge. }
    split; [apply Hslice|]. split; [apply Hslice|].
    rewrite cur_summaries_lookup, lookup_zip_with, !Hslice. reflexivity.
  - intros groups.
    destruct (group_summaries_reshape (length <$> groups) summaries (mjoin groups))
      as [_ ->].
    apply reshape_lengths.
Qed.

Lemma regroup_by_cumulative_boundaries_witness :
  let g := group_summaries [2; 0; 1] ["s0"; "s1"; "s2"] ["c0"; "c1"; "c2"] in
  (grouped_summaries g !! 0 = Some ["s0"; "s1"]
   ∧ grouped_contexts g !! 0 = Some ["c0"; "c1"])
  ∧ (grouped_summaries g !! 1 = Some []
     ∧ grouped_contexts g !! 1 = Some []
     ∧ cur_summaries [] [] !! 0 = None)
  ∧ (grouped_summaries g !! 2 = Some ["s2"]
     ∧ grouped_contexts g !! 2 = Some ["c2"]
     ∧ cur_summaries ["s2"] ["c2"] !! 0 = Some (summary_document "s2" "c2")
     ∧ cur_summaries ["s2"] ["c2"] !! 1 = None)
  ∧ grouped_summaries g !! 3 = None.
Proof.
  cbv zeta.
  destruct (regroup_by_cumulative_boundaries
              [2; 0; 1] ["s0"; "s1"; "s2"] ["c0"; "c1"; "c2"] 0)
    as (Hs0 & Hc0 & _).
  destruct (regroup_by_cumulative_boundaries
              [2; 0; 1] ["s0"; "s1"; "s2"] ["c0"; "c1"; "c2"] 1)
    as (Hs1 & Hc1 & _ & Hout1 & _).
  destruct (regroup_by_cumulative_boundaries
              [2; 0; 1] ["s0"; "s1"; "s2"] ["c0"; "c1"; "c2"] 2)
    as (Hs2 & Hc2 & Hin2 & Hout2 & _).
  destruct (regroup_by_cumulative_boundaries
              [2; 0; 1] ["s0"; "s1"; "s2"] ["c0"; "c1"; "c2"] 3)
    as (Hs3 & _).
  split; [|split; [|split]].
  - split; [exact Hs0 | exact Hc0].
  - split; [exact Hs1|]. split; [exact Hc1|].
    exact (proj2 (proj2 (Hout1 0 0 eq_refl (le_n 0)))).
  - split; [exact Hs2|]. split; [exact Hc2|]. split.
    + exact (proj2 (proj2 (Hin2 1 0 eq_refl (le_n 1)))).
    + exact (proj2 (proj2 (Hout2 1 1 eq_refl (le_n 1)))).
  - exact Hs3.
Defined.

(** C3.  Given a flat list of Documents that is not empty, [predict] returns
    a list of result Documents: as many as the input has when
    [generate_single_summary] is false, exactly one when it is true. *)
Theorem predict_returns_one_result_per_span self documents gsa w :
  engine_ok self → config_ok self → documents ≠ [] →
  ∃ result w',
    predict self documents gsa w = (Return result, w')
    ∧ length result
      = if default (generate_single_summary self) gsa then 1 else length documents.
Proof.
  intros Hengine Hconfig Hne. rewrite predict_run.
  rewrite bool_decide_eq_false_2 by (unfold config_ok in Hconfig; lia).
  rewrite bool_decide_eq_false_2 by (by destruct documents).
  cbv zeta. eexists _, _. split; [reflexivity|].
  by apply predict_result_length.
Qed.

Lemma predict_returns_one_result_per_span_witness :
  ∃ result w',
    predict demo [doc_abc; doc_def; doc_tiny] None initial_world = (Return result, w')
    ∧ length result = 3.
Proof.
  apply (predict_returns_one_result_per_span demo
           [doc_abc; doc_def; doc_tiny] None initial_world).
  - intros args texts. apply length_fmap.
  - unfold config_ok. cbn. lia.
  - discriminate.
Defined.

(** C4.  In merged mode every group contributes exactly one span, the join
    of its documents' contents, in input order, with the configured
    separator: [predict] and [predict_batch] on a flat list submit that one
    span and return one Document whose [context] is the joined text, and
    [predict_batch] on a list of groups submits one such span per group.
    For two documents with contents "A. B. C." and "D. E. F." and the
    separator " ", the one span submitted is "A. B. C. D. E. F." and the one
    result carries it as its [context]. *)
Theorem merged_mode_submits_one_joined_span self gsa w :
  engine_ok self → config_ok self →
  default (generate_single_summary self) gsa = true →
  let sep := separator_for_single_summary self in
  (∀ d ds,
     let joined := str_join sep (content <$> d :: ds) in
     let args := pipeline_args self None in
     calls (predict self (d :: ds) gsa w).2
       = calls w ++ [TokenizerCall [joined]; SummarizerCall args [joined]]
     ∧ ∃ summary,
         summarizer self args [joined] = [summary]
         ∧ (predict self (d :: ds) gsa w).1
           = Return [{| content := summary;
                        meta := {[ "context" := MStr joined ]} |}])
  ∧ (∀ d ds bsa,
       let joined := str_join sep (content <$> d :: ds) in
       let args := pipeline_args self (Some (default (batch_size self) bsa)) in
       calls (predict_batch self (FlatGroup (d :: ds)) gsa bsa w).2
         = calls w ++ [TokenizerCall [joined]; SummarizerCall args [joined]]
       ∧ ∃ summary,
           summarizer self args [joined] = [summary]
           ∧ (predict_batch self (FlatGroup (d :: ds)) gsa bsa w).1
             = Return [RDocument {| content := summary;
                                    meta := {[ "context" := MStr joined ]} |}])
  ∧ (∀ groups bsa,
       ¬ Forall (λ g, g = []) groups →
       let joined := (λ g : list Document, str_join sep (content <$> g)) <$> groups in
       let args := pipeline_args self (Some (default (batch_size self) bsa)) in
       build_spans self (GroupList groups) true false = (joined, (λ _, 1) <$> groups)
       ∧ calls (predict_batch self (GroupList groups) gsa bsa w).2
         = calls w ++ [TokenizerCall joined; SummarizerCall args joined]
       ∧ (predict_batch self (GroupList groups) gsa bsa w).1
         = Return ((λ '(summary, context),
                      RDocuments [{| content := summary;
                                     meta := {[ "context" := MStr context ]} |}])
                     <$> zip (summarizer self args joined) joined))
  ∧ (∀ d1 d2,
       sep = " " → content d1 = "A. B. C." → content d2 = "D. E. F." →
       str_join sep (content <$> [d1; d2]) = "A. B. C. D. E. F."
       ∧ calls (predict self [d1; d2] gsa w).2
         = calls w ++ [TokenizerCall ["A. B. C. D. E. F."];
                       SummarizerCall (pipeline_args self None) ["A. B. C. D. E. F."]]
       ∧ ∃ summary,
           (predict self [d1; d2] gsa w).1
           = Return [{| content := summary;
                        meta := {[ "context" := MStr "A. B. C. D. E. F." ]} |}]).
Proof.
  intros Hengine Hconfig Hmerged. cbv zeta.
  assert (∀ d ds,
            calls (predict self (d :: ds) gsa w).2
            = calls w ++
                [TokenizerCall
                   [str_join (separator_for_single_summary self) (content <$> d :: ds)];
                 SummarizerCall (pipeline_args self None)
                   [str_join (separator_for_single_summary self) (content <$> d :: ds)]]
            ∧ ∃ summary,
                summarizer self (pipeline_args self None)
                  [str_join (separator_for_single_summary self) (content <$> d :: ds)]
                = [summary]
                ∧ (predict self (d :: ds) gsa w).1
                  = Return [{| content := summary;
                               meta := {[ "context" :=
                                 MStr (str_join (separator_for_single_summary self)
                                         (content <$> d :: ds)) ]} |}]) as Hpredict.
  { intros d ds. rewrite predict_run.
    rewrite bool_decide_eq_false_2 by (unfold config_ok in Hconfig; lia).
    rewrite bool_decide_eq_false_2 by done.
    cbv zeta. rewrite Hmerged. unfold predict_contexts. cbn [fst snd].
    split; [apply calls_after_predict|].
    destruct (engine_single self (pipeline_args self None)
                (str_join (separator_for_single_summary self) (content <$> d :: ds))
                Hengine) as [summary Hsummary].
    exists summary. split; [done|]. unfold predict_result. by rewrite Hsummary. }
  split; [exact Hpredict|]. split; [|split].
  - intros d ds bsa.
    rewrite predict_batch_FlatGroup by done. rewrite Hmerged.
    unfold predict_contexts. cbn [fst snd].
    split; [apply calls_after_batch|].
    destruct (engine_single self
                (pipeline_args self (Some (default (batch_size self) bsa)))
                (str_join (separator_for_single_summary self) (content <$> d :: ds))
                Hengine) as [summary Hsummary].
    exists summary. split; [done|]. by rewrite Hsummary.
  - intros groups bsa Hsome.
    rewrite predict_batch_GroupList_merged by done.
    rewrite build_spans_GroupList. cbn [fst snd].
    split; [done|]. split; [apply calls_after_batch|done].
  - intros d1 d2 Hsep Hd1 Hd2.
    destruct (Hpredict d1 [d2]) as (Hcalls & summary & _ & Hresult).
    assert (str_join (separator_for_single_summary self) (content <$> [d1; d2])
            = "A. B. C. D. E. F.") as Hjoin.
    { cbn. by rewrite Hsep, Hd1, Hd2. }
    rewrite Hjoin in Hcalls, Hresult.
    split; [exact Hjoin|]. split; [exact Hcalls|]. by exists summary.
Qed.

Lemma merged_mode_submits_one_joined_span_witness :
  calls (predict demo [doc_abc; doc_def] (Some true) initial_world).2
    = [TokenizerCall ["A. B. C. D. E. F."];
       SummarizerCall (pipeline_args demo None) ["A. B. C. D. E. F."]]
  ∧ ∃ summary,
      (predict demo [doc_abc; doc_def] (Some true) initial_world).1
      = Return [{| content := summary;
                   meta := {[ "context" := MStr "A. B. C. D. E. F." ]} |}].
Proof.
  assert (engine_ok demo) as Hengine by (intros args texts; apply length_fmap).
  assert (config_ok demo) as Hconfig by (unfold config_ok; cbn; lia).
  destruct (merged_mode_submits_one_joined_span demo (Some true) initial_world
              Hengine Hconfig eq_refl) as (_ & _ & _ & Hexample).
  destruct (Hexample doc_abc doc_def eq_refl eq_refl eq_refl) as (_ & Hcalls & Hres).
  split; [exact Hcalls | exact Hres].
Defined.

(** C5.  In per-document mode a result should carry the metadata of the
    document it comes from, with [context] set to the span's text.  [predict]
    does so ([predict_keeps_document_metadata]); [predict_batch] does not.
    A document with the fields [name] and [context] goes through [predict]
    with [name] kept and [context] replaced by its content; the same document
    given to [predict_batch], as a flat list or as a one-document group,
    comes back with [context] alone. *)
Theorem predict_batch_drops_document_metadata :
  meta doc_abc !! "name" = Some (MStr "first")
  ∧ meta doc_abc !! "context" = Some (MInt 3)
  ∧ (predict demo [doc_abc] None initial_world).1
    = Return [{| content := "A.";
                 meta := {[ "name" := MStr "first";
                            "context" := MStr "A. B. C." ]} |}]
  ∧ (predict_batch demo (FlatGroup [doc_abc]) None None initial_world).1
    = Return [RDocument {| content := "A.";
                           meta := {[ "context" := MStr "A. B. C." ]} |}]
  ∧ (predict_batch demo (GroupList [[doc_abc]]) None None initial_world).1
    = Return [RDocuments [{| content := "A.";
                             meta := {[ "context" := MStr "A. B. C." ]} |}]]
  ∧ ({[ "context" := MStr "A. B. C." ]} : gmap string meta_value) !! "name" = None.
Proof. repeat split; vm_compute; reflexivity. Qed.

(** C6, as stated, fails: in merged mode the entry of each group of a
    list-of-lists input is a list holding one Document, not a Document. *)
Lemma merged_group_entry_is_a_list :
  (predict_batch demo (GroupList [[doc_abc; doc_def]; [doc_tiny]])
     (Some true) None initial_world).1
  = Return [RDocuments [{| content := "A.";
                           meta := {[ "context" := MStr "A. B. C. D. E. F." ]} |}];
            RDocuments [{| content := "ti";
                           meta := {[ "context" := MStr "tiny" ]} |}]]
  ∧ ¬ ∃ docs,
        (predict_batch demo (GroupList [[doc_abc; doc_def]; [doc_tiny]])
           (Some true) None initial_world).1
        = Return (RDocument <$> docs).
Proof.
  assert ((predict_batch demo (GroupList [[doc_abc; doc_def]; [doc_tiny]])
             (Some true) None initial_world).1
          = Return [RDocuments [{| content := "A.";
                                   meta := {[ "context" := MStr "A. B. C. D. E. F." ]} |}];
                    RDocuments [{| content := "ti";
                                   meta := {[ "context" := MStr "tiny" ]} |}]]) as Hrun.
  { vm_compute. reflexivity. }
  split; [exact Hrun|].
  intros [docs Hdocs]. rewrite Hrun in Hdocs.
  destruct docs as [|doc docs]; discriminate.
Qed.

(** C6, amended.  For a list-of-lists input every group's entry in the
    returned list is a list of result Documents: of length one in merged
    mode, of the group's length in per-document mode.  For a flat input the
    entries are single Documents: one in merged mode, one per input document
    in per-document mode. *)
Theorem predict_batch_result_shape self gsa bsa w :
  engine_ok self → config_ok self →
  let merged := default (generate_single_summary self) gsa in
  (∀ groups,
     ¬ Forall (λ g, g = []) groups →
     ∃ entries,
       (predict_batch self (GroupList groups) gsa bsa w).1 = Return entries
       ∧ length entries = length groups
       ∧ ∀ i g, groups !! i = Some g →
           ∃ docs, entries !! i = Some (RDocuments docs)
                   ∧ length docs = if merged then 1 else length g)
  ∧ (∀ d ds,
       ∃ docs,
         (predict_batch self (FlatGroup (d :: ds)) gsa bsa w).1 = Return (RDocument <$> docs)
         ∧ length docs = if merged then 1 else length (d :: ds)).
Proof.
  intros Hengine Hconfig. cbv zeta. split.
  - intros groups Hsome.
    destruct (default (generate_single_summary self) gsa) eqn:Hmode.
    + rewrite predict_batch_GroupList_merged by done. cbn [fst].
      set (joined := (λ g : list Document, _) <$> groups).
      set (args := pipeline_args self _).
      assert (length (summarizer self args joined) = length groups) as Hlen
        by (by rewrite Hengine; unfold joined; rewrite length_fmap).
      eexists. split; [reflexivity|]. split.
      * rewrite length_fmap, length_zip_with. unfold joined at 2.
        rewrite length_fmap. lia.
      * intros i g Hg.
        destruct (lookup_lt_is_Some_2 (summarizer self args joined) i) as [s Hs].
        { rewrite Hlen. by eapply lookup_lt_Some. }
        eexists. split.
        { rewrite list_lookup_fmap, lookup_zip_with, Hs. unfold joined.
          by rewrite list_lookup_fmap, Hg. }
        reflexivity.
    + rewrite predict_batch_GroupList_per_document by done. cbn [fst].
      set (contexts := (λ g : list Document, content <$> g) <$> groups).
      set (args := pipeline_args self _).
      assert (sum_list (length <$> groups)
              = length (summarizer self args (mjoin contexts))) as Hsum.
      { rewrite Hengine, length_join. unfold contexts.
        rewrite <-list_fmap_compose. f_equal. apply list_fmap_ext.
        intros _ g _. cbn. by rewrite length_fmap. }
      eexists. split; [reflexivity|]. split.
      * rewrite length_fmap, length_zip_with, length_reshape. unfold contexts.
        rewrite !length_fmap. lia.
      * intros i g Hg.
        destruct (reshape_lookup_length (length <$> groups)
                    (summarizer self args (mjoin contexts)) i (length g))
          as (sg & Hsg & Hlen); [lia|by rewrite list_lookup_fmap, Hg|].
        eexists. split.
        { rewrite list_lookup_fmap, lookup_zip_with, Hsg. unfold contexts.
          by rewrite list_lookup_fmap, Hg. }
        rewrite cur_summaries_length; by rewrite length_fmap.
  - intros d ds. rewrite predict_batch_FlatGroup by done. cbn [fst].
    set (contexts := predict_contexts self (d :: ds) _).
    set (args := pipeline_args self _).
    exists ((λ '(s, c), summary_document s c) <$> zip (summarizer self args contexts) contexts).
    split.
    + f_equal. rewrite <-list_fmap_compose. apply list_fmap_ext. by intros _ [s c] _.
    + rewrite length_fmap, length_zip_with, Hengine. unfold contexts, predict_contexts.
      destruct (default (generate_single_summary self) gsa); [done|].
      rewrite length_fmap. lia.
Qed.

Lemma predict_batch_result_shape_witness :
  (∃ entries,
     (predict_batch demo (GroupList [[doc_abc; doc_def]; []; [doc_tiny]])
        (Some true) None initial_world).1 = Return entries
     ∧ length entries = 3
     ∧ ∃ docs, entries !! 0 = Some (RDocuments docs) ∧ length docs = 1)
  ∧ (∃ docs,
       (predict_batch demo (FlatGroup [doc_abc; doc_def])
          (Some true) None initial_world).1 = Return (RDocument <$> docs)
       ∧ length docs = 1).
Proof.
  assert (engine_ok demo) as Hengine by (intros args texts; apply length_fmap).
  assert (config_ok demo) as Hconfig by (unfold config_ok; cbn; lia).
  destruct (predict_batch_result_shape demo (Some true) None initial_world
              Hengine Hconfig) as [Hgroups Hflat].
  split.
  - destruct (Hgroups [[doc_abc; doc_def]; []; [doc_tiny]])
      as (entries & Hrun & Hlen & Hentry).
    { intros Hall. inversion Hall. discriminate. }
    exists entries. split; [exact Hrun|]. split; [exact Hlen|].
    exact (Hentry 0 [doc_abc; doc_def] eq_refl).
  - exact (Hflat doc_abc [doc_def]).
Defined.

(** C7.  When [min_length] is greater than [max_length], [predict] and
    [predict_batch] raise the configuration error whatever they are given,
    and leave the state as it was: neither the tokenizer nor the inference
    engine has been called. *)
Theorem invalid_configuration_before_any_collaborator self w :
  (max_length self < min_length self)%Z →
  (∀ documents gsa,
     predict self documents gsa w = (Raise InvalidConfiguration, w)
     ∧ calls (predict self documents gsa w).2 = calls w)
  ∧ (∀ documents gsa bsa,
       predict_batch self documents gsa bsa w = (Raise InvalidConfiguration, w)
       ∧ calls (predict_batch self documents gsa bsa w).2 = calls w).
Proof.
  intros Hbad. split; intros.
  - rewrite predict_run, bool_decide_eq_true_2 by done. done.
  - rewrite predict_batch_run, bool_decide_eq_true_2 by done. done.
Qed.

Lemma invalid_configuration_before_any_collaborator_witness :
  (∀ documents gsa,
     predict demo_bad_bounds documents gsa initial_world
       = (Raise InvalidConfiguration, initial_world)
     ∧ calls (predict demo_bad_bounds documents gsa initial_world).2 = [])
  ∧ (∀ documents gsa bsa,
       predict_batch demo_bad_bounds documents gsa bsa initial_world
         = (Raise InvalidConfiguration, initial_world)
       ∧ calls (predict_batch demo_bad_bounds documents gsa bsa initial_world).2 = []).
Proof.
  apply (invalid_configuration_before_any_collaborator demo_bad_bounds initial_world).
  cbn. lia.
Defined.

(** C8.  With generation bounds in order, the empty list makes [predict] and
    [predict_batch] raise the input error, and so does a list of groups that
    are all empty, such as [[[], []]], given to [predict_batch]; the state is
    left as it was, so nothing has been tokenized or summarized. *)
Theorem empty_input_is_invalid self w :
  config_ok self →
  (∀ gsa, predict self [] gsa w = (Raise InvalidInput, w))
  ∧ (∀ gsa bsa, predict_batch self [] gsa bsa w = (Raise InvalidInput, w))
  ∧ (∀ groups gsa bsa,
       Forall (λ g, g = []) groups →
       predict_batch self (GroupList groups) gsa bsa w = (Raise InvalidInput, w))
  ∧ (∀ gsa bsa,
       predict_batch self (GroupList [[]; []]) gsa bsa w = (Raise InvalidInput, w)).
Proof.
  intros Hconfig. unfold config_ok in Hconfig.
  assert (∀ groups gsa bsa,
            Forall (λ g, g = []) groups →
            predict_batch self (GroupList groups) gsa bsa w = (Raise InvalidInput, w))
    as Hgroups.
  { intros groups gsa bsa Hempty.
    rewrite predict_batch_run, bool_decide_eq_false_2 by lia.
    by rewrite nothing_to_summarize_GroupList, bool_decide_eq_true_2. }
  repeat split.
  - intros gsa. by rewrite predict_run, bool_decide_eq_false_2 by lia.
  - intros gsa bsa. by rewrite predict_batch_run, bool_decide_eq_false_2 by lia.
  - exact Hgroups.
  - intros gsa bsa. apply Hgroups. by repeat constructor.
Qed.

Lemma empty_input_is_invalid_witness :
  (∀ gsa, predict demo [] gsa initial_world = (Raise InvalidInput, initial_world))
  ∧ (∀ gsa bsa,
       predict_batch demo [] gsa bsa initial_world = (Raise InvalidInput, initial_world))
  ∧ (∀ groups gsa bsa,
       Forall (λ g, g = []) groups →
       predict_batch demo (GroupList groups) gsa bsa initial_world
       = (Raise InvalidInput, initial_world))
  ∧ (∀ gsa bsa,
       predict_batch demo (GroupList [[]; []]) gsa bsa initial_world
       = (Raise InvalidInput, initial_world)).
Proof.
  apply (empty_input_is_invalid demo initial_world).
  unfold config_ok. cbn. lia.
Defined.

(** C9.  The advisory about spans longer than the tokenizer allows.
    - [predict], one call: the advisory is logged when a span is too long
      and its text is not yet in [self.print_log], and the text is then
      remembered there.
    - [predict], over the life of an instance that starts with an empty
      [print_log] and is used through both methods: the [predict] calls log
      no text twice, and log a text exactly when some [predict] call had a
      span that was too long and that text as its advisory.
    - [predict_batch], one call: exactly one advisory is logged when some
      span is too long, however many are, none otherwise, and [print_log] is
      left alone.
    - Neither stops inference: on a valid call the engine receives every span
      after the tokenizer has, and the call returns its results. *)
Theorem truncation_advisory_policy :
  (∀ self documents gsa w,
     let m := truncation_warning self in
     let over := predict_overflows (mkPredictCall self documents gsa) in
     logged (predict self documents gsa w).2
       = logged w ++ (if over && negb (bool_decide (m ∈ print_log w)) then [m] else [])
     ∧ print_log (predict self documents gsa w).2
       = if over then {[m]} ∪ print_log w else print_log w)
  ∧ (∀ cs w,
       print_log w = ∅ →
       NoDup (predict_entries cs w)
       ∧ ∀ m, m ∈ predict_entries cs w
              ↔ ∃ c, ByPredict c ∈ cs ∧ predict_overflows c = true
                     ∧ truncation_warning (call_self c) = m)
  ∧ (∀ self documents gsa bsa w,
       logged (predict_batch self documents gsa bsa w).2
         = logged w ++ (if predict_batch_overflows self documents gsa
                        then [truncation_warning self] else [])
       ∧ print_log (predict_batch self documents gsa bsa w).2 = print_log w)
  ∧ (∀ self documents gsa w,
       config_ok self → documents ≠ [] →
       let gss := default (generate_single_summary self) gsa in
       let contexts := predict_contexts self documents gss in
       let args := pipeline_args self None in
       calls (predict self documents gsa w).2
         = calls w ++ [TokenizerCall contexts; SummarizerCall args contexts]
       ∧ (predict self documents gsa w).1
         = Return (predict_result gss contexts (summarizer self args contexts)
                     documents))
  ∧ (∀ self documents gsa bsa w,
       engine_ok self → config_ok self → nothing_to_summarize documents = false →
       let contexts :=
         (build_spans self documents (default (generate_single_summary self) gsa)
            (is_single_doc_list documents)).1 in
       let args := pipeline_args self (Some (default (batch_size self) bsa)) in
       calls (predict_batch self documents gsa bsa w).2
         = calls w ++ [TokenizerCall contexts; SummarizerCall args contexts]
       ∧ ∃ entries, (predict_batch self documents gsa bsa w).1 = Return entries).
Proof.
  split; [exact predict_log|]. split; [|split; [exact predict_batch_log|split]].
  - intros cs w Hempty.
    destruct (predict_entries_deduplicated cs w) as [Hnodup Hlogged].
    split; [exact Hnodup|]. intros m. rewrite Hlogged, Hempty. set_solver.
  - intros self documents gsa w Hconfig Hne. cbv zeta. unfold config_ok in Hconfig.
    rewrite predict_run, bool_decide_eq_false_2 by lia.
    rewrite bool_decide_eq_false_2 by (by destruct documents).
    cbv zeta. cbn [fst snd]. split; [apply calls_after_predict|done].
  - intros self documents gsa bsa w Hengine Hconfig Hinput. cbv zeta.
    split; [|by apply predict_batch_returns].
    rewrite predict_batch_run, Hinput.
    rewrite bool_decide_eq_false_2 by (unfold config_ok in Hconfig; lia).
    cbv zeta. rewrite build_result_world. apply calls_after_batch.
Qed.

Lemma truncation_advisory_policy_witness :
  let long := mkPredictCall demo [doc_abc; doc_def] None in
  let short := mkPredictCall demo [doc_tiny] None in
  let cs := [ByPredict long;
             ByPredictBatch demo (FlatGroup [doc_abc; doc_def]) None None;
             ByPredict short;
             ByPredict long] in
  (NoDup (predict_entries cs initial_world)
   ∧ truncation_warning demo ∈ predict_entries cs initial_world)
  ∧ logged (predict_batch demo (FlatGroup [doc_abc; doc_def]) None None
              initial_world).2
    = [truncation_warning demo]
  ∧ calls (predict demo [doc_abc; doc_def] None initial_world).2
    = [TokenizerCall ["A. B. C."; "D. E. F."];
       SummarizerCall (pipeline_args demo None) ["A. B. C."; "D. E. F."]]
  ∧ ∃ entries,
      (predict_batch demo (FlatGroup [doc_abc; doc_def]) None None initial_world).1
      = Return entries.
Proof.
  cbv zeta.
  destruct truncation_advisory_policy
    as (_ & Hlifetime & Hbatch & Hpredict & Hreturns).
  assert (engine_ok demo) as Hengine by (intros args texts; apply length_fmap).
  assert (config_ok demo) as Hconfig by (unfold config_ok; cbn; lia).
  split; [|split; [|split]].
  - destruct (Hlifetime
                [ByPredict (mkPredictCall demo [doc_abc; doc_def] None);
                 ByPredictBatch demo (FlatGroup [doc_abc; doc_def]) None None;
                 ByPredict (mkPredictCall demo [doc_tiny] None);
                 ByPredict (mkPredictCall demo [doc_abc; doc_def] None)]
                initial_world eq_refl)
      as [Hnodup Hlogged].
    split; [exact Hnodup|]. apply Hlogged.
    exists (mkPredictCall demo [doc_abc; doc_def] None).
    split; [apply list_elem_of_here|]. split; reflexivity.
  - exact (proj1 (Hbatch demo (FlatGroup [doc_abc; doc_def]) None None initial_world)).
  - exact (proj1 (Hpredict demo [doc_abc; doc_def] None initial_world Hconfig
                    ltac:(discriminate))).
  - exact (proj2 (Hreturns demo (FlatGroup [doc_abc; doc_def]) None None initial_world
                    Hengine Hconfig eq_refl)).
Defined.

(** C10.  In merged mode an empty group inside a list of groups is kept: it
    contributes the empty string as its one span, the engine is given that
    span and returns a summary for it, and the group's entry in the output
    is the one Document built from that summary, with the empty string as
    its [context]. *)
Theorem empty_group_gets_its_own_summary self groups i gsa bsa w :
  engine_ok self → config_ok self →
  default (generate_single_summary self) gsa = true →
  ¬ Forall (λ g, g = []) groups → groups !! i = Some [] →
  let spans := build_spans self (GroupList groups) true false in
  let args := pipeline_args self (Some (default (batch_size self) bsa)) in
  spans.1 !! i = Some ""
  ∧ spans.2 !! i = Some 1
  ∧ length spans.1 = length groups
  ∧ calls (predict_batch self (GroupList groups) gsa bsa w).2
    = calls w ++ [TokenizerCall spans.1; SummarizerCall args spans.1]
  ∧ ∃ summary entries,
      summarizer self args spans.1 !! i = Some summary
      ∧ (predict_batch self (GroupList groups) gsa bsa w).1 = Return entries
      ∧ length entries = length groups
      ∧ entries !! i
        = Some (RDocuments [{| content := summary;
                               meta := {[ "context" := MStr "" ]} |}]).
Proof.
  intros Hengine Hconfig Hmerged Hsome Hi. cbv zeta.
  rewrite predict_batch_GroupList_merged by done.
  rewrite build_spans_GroupList. cbn [fst snd].
  set (joined := (λ g : list Document, _) <$> groups).
  set (args := pipeline_args self _).
  assert (joined !! i = Some "") as Hspan
    by (by unfold joined; rewrite list_lookup_fmap, Hi).
  assert (length joined = length groups) as Hjoined
    by (by unfold joined; rewrite length_fmap).
  split; [done|]. split; [by rewrite list_lookup_fmap, Hi|].
  split; [done|]. split; [apply calls_after_batch|].
  destruct (lookup_lt_is_Some_2 (summarizer self args joined) i) as [summary Hsummary].
  { rewrite Hengine, Hjoined. by eapply lookup_lt_Some. }
  exists summary. eexists. split; [done|]. split; [reflexivity|]. split.
  - rewrite length_fmap, length_zip_with, Hengine. lia.
  - by rewrite list_lookup_fmap, lookup_zip_with, Hsummary, Hspan.
Qed.

Lemma empty_group_gets_its_own_summary_witness :
  let spans := build_spans demo (GroupList [[doc_abc]; []]) true false in
  let args := pipeline_args demo (Some 16%Z) in
  spans.1 !! 1 = Some ""
  ∧ spans.2 !! 1 = Some 1
  ∧ length spans.1 = 2
  ∧ calls (predict_batch demo (GroupList [[doc_abc]; []]) (Some true) None
             initial_world).2
    = [TokenizerCall spans.1; SummarizerCall args spans.1]
  ∧ ∃ summary entries,
      summarizer demo args spans.1 !! 1 = Some summary
      ∧ (predict_batch demo (GroupList [[doc_abc]; []]) (Some true) None
           initial_world).1 = Return entries
      ∧ length entries = 2
      ∧ entries !! 1
        = Some (RDocuments [{| content := summary;
                               meta := {[ "context" := MStr "" ]} |}]).
Proof.
  apply (empty_group_gets_its_own_summary demo [[doc_abc]; []] 1 (Some true) None
           initial_world).
  - intros args texts. apply length_fmap.
  - unfold config_ok. cbn. lia.
  - reflexivity.
  - intros Hall. inversion Hall. discriminate.
  - reflexivity.
Defined.

(** * Further properties *)

(** ** Shared lemmas *)

Lemma demo_engine_ok : engine_ok demo.
Proof. intros args texts. apply length_fmap. Qed.

Lemma demo_config_ok : config_ok demo.
Proof. unfold config_ok. cbn. lia. Qed.

Lemma predict_result_per_document (summaries : list string) documents :
  predict_result false (content <$> documents) summaries documents
  = zip_with (λ summary d,
                {| content := summary;
                   meta := <[ "context" := MStr (content d) ]> (meta d) |})
      summaries documents.
Proof.
  unfold predict_result. revert summaries.
  induction documents as [|d documents IH]; intros [|s summaries]; try done.
  rewrite !fmap_cons. cbn [zip_with fmap list_fmap]. f_equal. apply IH.
Qed.

Lemma batch_documents_zip (summaries : list string) (documents : list Document) :
  (λ '(s, c), summary_document s c) <$> zip summaries (content <$> documents)
  = zip_with (λ summary d, summary_document summary (content d)) summaries documents.
Proof.
  revert summaries.
  induction documents as [|d documents IH]; intros [|s summaries]; try done.
  rewrite fmap_cons. cbn [zip_with fmap list_fmap]. f_equal. apply IH.
Qed.

Lemma predict_result_length_min (gss : bool) (contexts summaries : list string)
    (documents : list Document) :
  length contexts = (if gss then 1 else length documents) →
  length (predict_result gss contexts summaries documents)
  = length contexts `min` length summaries.
Proof.
  intros Hlen. unfold predict_result.
  destruct gss; rewrite length_fmap, !length_zip_with; lia.
Qed.

Lemma predict_contexts_length self documents gss :
  length (predict_contexts self documents gss)
  = if gss then 1 else length documents.
Proof. unfold predict_contexts. destruct gss; [done|apply length_fmap]. Qed.

(** ** predict *)

(** X1.  In per-document mode [predict] keeps the order of its input: result
    [i] has the engine's [i]-th summary as content, and the metadata of
    document [i] with [context] set to that document's content. *)
Theorem predict_per_document_results self documents gsa w :
  engine_ok self → config_ok self → documents ≠ [] →
  default (generate_single_summary self) gsa = false →
  let summaries :=
    summarizer self (pipeline_args self None) (content <$> documents) in
  ∃ result,
    (predict self documents gsa w).1 = Return result
    ∧ length result = length documents
    ∧ ∀ i d, documents !! i = Some d →
        ∃ summary,
          summaries !! i = Some summary
          ∧ result !! i
            = Some {| content := summary;
                      meta := <[ "context" := MStr (content d) ]> (meta d) |}.
Proof.
  intros Hengine Hconfig Hne Hmode. cbv zeta. unfold config_ok in Hconfig.
  rewrite predict_run, bool_decide_eq_false_2 by lia.
  rewrite bool_decide_eq_false_2 by (by destruct documents).
  cbv zeta. rewrite Hmode. unfold predict_contexts. cbn [fst].
  rewrite predict_result_per_document.
  pose proof (Hengine (pipeline_args self None) (content <$> documents)) as Hlen.
  rewrite length_fmap in Hlen.
  eexists. split; [reflexivity|]. split.
  - rewrite length_zip_with. lia.
  - intros i d Hd.
    destruct (lookup_lt_is_Some_2
                (summarizer self (pipeline_args self None) (content <$> documents)) i)
      as [summary Hsummary].
    { rewrite Hlen. by eapply lookup_lt_Some. }
    exists summary. split; [done|].
    by rewrite lookup_zip_with, Hsummary, Hd.
Qed.

Lemma predict_per_document_results_witness :
  ∃ result,
    (predict demo [doc_abc; doc_tiny] None initial_world).1 = Return result
    ∧ length result = 2
    ∧ ∀ i d, [doc_abc; doc_tiny] !! i = Some d →
        ∃ summary,
          prefix_engine (pipeline_args demo None) ["A. B. C."; "tiny"] !! i
            = Some summary
          ∧ result !! i
            = Some {| content := summary;
                      meta := <[ "context" := MStr (content d) ]> (meta d) |}.
Proof.
  apply (predict_per_document_results demo [doc_abc; doc_tiny] None initial_world).
  - exact demo_engine_ok.
  - exact demo_config_ok.
  - discriminate.
  - reflexivity.
Defined.


(** X2.  [predict] raises in two cases only, whatever the tokenizer and the
    engine do: the configuration error when [min_length] is greater than
    [max_length], and otherwise the input error when the list is empty.  It
    never raises IndexError, and when it raises the state is as before. *)
Theorem predict_raises_exactly self documents gsa w e :
  ((predict self documents gsa w).1 = Raise e
   ↔ ((max_length self < min_length self)%Z ∧ e = InvalidConfiguration)
     ∨ ((min_length self ≤ max_length self)%Z ∧ documents = []
        ∧ e = InvalidInput))
  ∧ (predict self documents gsa w).1 ≠ Raise IndexError
  ∧ ((predict self documents gsa w).1 = Raise e
     → (predict self documents gsa w).2 = w).
Proof.
  rewrite predict_run.
  destruct (bool_decide_reflect (max_length self < min_length self)%Z) as [Hbad|Hok].
  { cbn [fst snd]. split; [|done]. split.
    - intros [= <-]. by left.
    - intros [[_ ->]|[? _]]; [done|lia]. }
  destruct (bool_decide_reflect (length documents = 0)) as [Hempty|Hsome].
  { cbn [fst snd]. split; [|done]. split.
    - intros [= <-]. right. split; [lia|]. split; [|done].
      by destruct documents.
    - intros [[? _]|(_ & _ & ->)]; [lia|done]. }
  cbv zeta. cbn [fst snd]. split; [|done]. split; [done|].
  intros [[? _]|(_ & -> & _)]; [lia|done].
Qed.

Lemma predict_raises_exactly_witness :
  (predict demo_bad_bounds [] None initial_world).1 = Raise InvalidConfiguration
  ∧ (predict demo [] None initial_world).1 = Raise InvalidInput
  ∧ (predict demo [] None initial_world).2 = initial_world.
Proof.
  split; [|split].
  - apply (predict_raises_exactly demo_bad_bounds [] None initial_world
             InvalidConfiguration).
    left. split; [cbn; lia|reflexivity].
  - apply (predict_raises_exactly demo [] None initial_world InvalidInput).
    right. split; [cbn; lia|]. split; reflexivity.
  - apply (predict_raises_exactly demo [] None initial_world InvalidInput).
    reflexivity.
Defined.

(** X3.  [predict] pairs spans and summaries with [zip]: on a valid call it
    returns as many results as the shorter of the two lists has, so an engine
    that gives back fewer summaries than spans shortens the result without
    any error, and surplus summaries are dropped. *)
Theorem predict_returns_shortest self documents gsa w :
  config_ok self → documents ≠ [] →
  let contexts :=
    predict_contexts self documents (default (generate_single_summary self) gsa) in
  ∃ result,
    (predict self documents gsa w).1 = Return result
    ∧ length result
      = length contexts
          `min` length (summarizer self (pipeline_args self None) contexts).
Proof.
  intros Hconfig Hne. cbv zeta. unfold config_ok in Hconfig.
  rewrite predict_run, bool_decide_eq_false_2 by lia.
  rewrite bool_decide_eq_false_2 by (by destruct documents).
  cbv zeta. cbn [fst]. eexists. split; [reflexivity|].
  apply predict_result_length_min, predict_contexts_length.
Qed.

Lemma predict_returns_shortest_witness :
  ∃ result,
    (predict demo_lossy [doc_abc; doc_def; doc_tiny] None initial_world).1
    = Return result
    ∧ length result = 2.
Proof.
  apply (predict_returns_shortest demo_lossy [doc_abc; doc_def; doc_tiny] None
           initial_world).
  - unfold config_ok. cbn. lia.
  - discriminate.
Defined.

(** ** predict_batch *)

Lemma build_result_missing_summary (contexts summaries : list string) w :
  length summaries < length contexts →
  build_result true
    (zip (reshape ((λ _, 1) <$> contexts) summaries) ((λ x, [x]) <$> contexts)) w
  = (Raise IndexError, w).
Proof.
  revert summaries.
  induction contexts as [|c contexts IH]; intros summaries Hlen; [cbn in Hlen; lia|].
  rewrite !fmap_cons. cbn [reshape].
  destruct summaries as [|s summaries].
  - cbn [take drop zip_with build_result]. by rewrite run_bind.
  - cbn [take drop zip_with build_result]. rewrite run_bind.
    unfold result_entry. cbn [cur_summaries zip_with fmap list_fmap].
    rewrite run_ret, run_bind, IH; [done|].
    rewrite drop_0. cbn in Hlen. lia.
Qed.

(** X4.  On a flat list [predict_batch] takes [cur_summaries[0]] for every
    span.  If the engine gives back fewer summaries than spans, the call
    raises IndexError, after the tokenizer and the engine have both been
    called with all the spans. *)
Theorem predict_batch_flat_needs_every_summary self d ds gsa bsa w :
  config_ok self →
  let contexts :=
    predict_contexts self (d :: ds) (default (generate_single_summary self) gsa) in
  let args := pipeline_args self (Some (default (batch_size self) bsa)) in
  length (summarizer self args contexts) < length contexts →
  (predict_batch self (FlatGroup (d :: ds)) gsa bsa w).1 = Raise IndexError
  ∧ calls (predict_batch self (FlatGroup (d :: ds)) gsa bsa w).2
    = calls w ++ [TokenizerCall contexts; SummarizerCall args contexts].
Proof.
  intros Hconfig. cbv zeta. intros Hshort. unfold config_ok in Hconfig.
  rewrite predict_batch_run, bool_decide_eq_false_2 by lia.
  rewrite nothing_to_summarize_FlatGroup, single_doc_list_FlatGroup.
  cbv zeta. rewrite build_spans_FlatGroup. cbn [fst snd].
  rewrite (reshape_ones (predict_contexts self (d :: ds) _)
             (predict_contexts self (d :: ds) _)) by done.
  rewrite build_result_missing_summary by done.
  cbn [fst snd]. split; [done|apply calls_after_batch].
Qed.

Lemma predict_batch_flat_needs_every_summary_witness :
  (predict_batch demo_lossy (FlatGroup [doc_abc; doc_def]) None None
     initial_world).1 = Raise IndexError
  ∧ calls (predict_batch demo_lossy (FlatGroup [doc_abc; doc_def]) None None
             initial_world).2
    = [TokenizerCall ["A. B. C."; "D. E. F."];
       SummarizerCall (pipeline_args demo_lossy (Some 16%Z))
         ["A. B. C."; "D. E. F."]].
Proof.
  apply (predict_batch_flat_needs_every_summary demo_lossy doc_abc [doc_def]
           None None initial_world).
  - unfold config_ok. cbn. lia.
  - cbn. lia.
Defined.

(** X5.  With an engine that returns one summary per span, [predict_batch]
    raises in two cases only: the configuration error when [min_length] is
    greater than [max_length], and otherwise the input error when the list is
    empty or starts with a list and holds only empty lists.  For a list of
    groups that means: all groups empty; for a flat list: no documents.  When
    it raises the state is as before. *)
Theorem predict_batch_raises_exactly self documents gsa bsa w e :
  engine_ok self →
  ((predict_batch self documents gsa bsa w).1 = Raise e
   ↔ ((max_length self < min_length self)%Z ∧ e = InvalidConfiguration)
     ∨ ((min_length self ≤ max_length self)%Z
        ∧ nothing_to_summarize documents = true ∧ e = InvalidInput))
  ∧ ((predict_batch self documents gsa bsa w).1 = Raise e
     → (predict_batch self documents gsa bsa w).2 = w)
  ∧ (∀ groups,
       nothing_to_summarize (GroupList groups) = true
       ↔ Forall (λ g, g = []) groups)
  ∧ (∀ ds, nothing_to_summarize (FlatGroup ds) = true ↔ ds = []).
Proof.
  intros Hengine.
  assert (∀ groups,
            nothing_to_summarize (GroupList groups) = true
            ↔ Forall (λ g, g = []) groups) as Hgroups.
  { intros groups. rewrite nothing_to_summarize_GroupList.
    apply bool_decide_eq_true. }
  assert (∀ ds, nothing_to_summarize (FlatGroup ds) = true ↔ ds = []) as Hflat.
  { intros [|d ds]; [done|]. by rewrite nothing_to_summarize_FlatGroup. }
  destruct (bool_decide_reflect (max_length self < min_length self)%Z) as [Hbad|Hok].
  { rewrite predict_batch_run, bool_decide_eq_true_2 by done. cbn [fst snd].
    split; [|done]. split.
    - intros [= <-]. by left.
    - intros [[_ ->]|[? _]]; [done|lia]. }
  destruct (nothing_to_summarize documents) eqn:Hinput.
  { rewrite predict_batch_run, bool_decide_eq_false_2, Hinput by done.
    cbn [fst snd]. split; [|done]. split.
    - intros [= <-]. right. split; [lia|done].
    - intros [[? _]|(_ & _ & ->)]; [lia|done]. }
  destruct (predict_batch_returns self documents gsa bsa w Hengine)
    as [entries Hentries]; [unfold config_ok; lia|done|].
  rewrite Hentries. split; [|done]. split; [done|].
  intros [[? _]|(_ & ? & _)]; [lia|done].
Qed.

Lemma predict_batch_raises_exactly_witness :
  (predict_batch demo (GroupList [[]; []]) None None initial_world).1
  = Raise InvalidInput
  ∧ (predict_batch demo (GroupList [[]; []]) None None initial_world).2
    = initial_world.
Proof.
  destruct (predict_batch_raises_exactly demo (GroupList [[]; []]) None None
              initial_world InvalidInput demo_engine_ok) as (Hiff & Hworld & _).
  assert ((predict_batch demo (GroupList [[]; []]) None None initial_world).1
          = Raise InvalidInput) as Hraise.
  { apply Hiff. right. split; [cbn; lia|]. split; reflexivity. }
  split; [exact Hraise | exact (Hworld Hraise)].
Defined.

(** X6.  Per-document mode on a list of groups: document [k] of group [i]
    comes back as Document [k] of entry [i], with the summary the engine
    returned at the document's place in the flattened spans, that is after
    all the documents of the groups before [i], and with the document's own
    content as [context]. *)
Theorem predict_batch_per_document_provenance self groups gsa bsa w i g k d :
  engine_ok self → config_ok self →
  default (generate_single_summary self) gsa = false →
  groups !! i = Some g → g !! k = Some d →
  let contexts := mjoin ((λ g : list Document, content <$> g) <$> groups) in
  let args := pipeline_args self (Some (default (batch_size self) bsa)) in
  let summaries := summarizer self args contexts in
  let offset := sum_list (length <$> take i groups) in
  ∃ entries docs summary,
    (predict_batch self (GroupList groups) gsa bsa w).1 = Return entries
    ∧ entries !! i = Some (RDocuments docs)
    ∧ contexts !! (offset + k) = Some (content d)
    ∧ summaries !! (offset + k) = Some summary
    ∧ docs !! k = Some {| content := summary;
                          meta := {[ "context" := MStr (content d) ]} |}.
Proof.
  intros Hengine Hconfig Hmode Hg Hd. cbv zeta.
  assert (¬ Forall (λ g, g = []) groups) as Hsome.
  { intros Hall. rewrite Forall_lookup in Hall.
    rewrite (Hall i g Hg) in Hd. done. }
  rewrite predict_batch_GroupList_per_document by done. cbn [fst].
  set (cs := (λ g : list Document, content <$> g) <$> groups).
  set (args := pipeline_args self _).
  set (offset := sum_list (length <$> take i groups)).
  assert (mjoin cs !! (offset + k) = Some (content d)) as Hcontext.
  { apply join_lookup_Some. exists i, (content <$> g), k.
    split; [by unfold cs; rewrite list_lookup_fmap, Hg|].
    split; [by rewrite list_lookup_fmap, Hd|].
    unfold offset, cs. f_equal. f_equal.
    rewrite <-fmap_take, <-list_fmap_compose. apply list_fmap_ext.
    intros _ g' _. cbn. by rewrite length_fmap. }
  destruct (lookup_lt_is_Some_2 (summarizer self args (mjoin cs)) (offset + k))
    as [summary Hsummary].
  { rewrite Hengine. by eapply lookup_lt_Some. }
  eexists _, _, summary. split; [reflexivity|].
  split; [|split; [done|split; [done|]]].
  - rewrite list_lookup_fmap, lookup_zip_with, reshape_lookup.
    rewrite list_lookup_fmap, Hg. unfold cs. rewrite list_lookup_fmap, Hg.
    reflexivity.
  - rewrite cur_summaries_lookup, lookup_zip_with.
    rewrite lookup_take_lt by (by eapply lookup_lt_Some).
    rewrite lookup_drop, <-fmap_take. fold offset. unfold cs in Hsummary.
    by rewrite Hsummary, list_lookup_fmap, Hd.
Qed.

Lemma predict_batch_per_document_provenance_witness :
  ∃ entries docs summary,
    (predict_batch demo (GroupList [[doc_abc; doc_def]; []; [doc_tiny]])
       None None initial_world).1 = Return entries
    ∧ entries !! 2 = Some (RDocuments docs)
    ∧ ["A. B. C."; "D. E. F."; "tiny"] !! 2 = Some "tiny"
    ∧ prefix_engine (pipeline_args demo (Some 16%Z))
        ["A. B. C."; "D. E. F."; "tiny"] !! 2 = Some summary
    ∧ docs !! 0 = Some {| content := summary;
                          meta := {[ "context" := MStr "tiny" ]} |}.
Proof.
  apply (predict_batch_per_document_provenance demo
           [[doc_abc; doc_def]; []; [doc_tiny]] None None initial_world
           2 [doc_tiny] 0 doc_tiny demo_engine_ok demo_config_ok);
    reflexivity.
Defined.

Lemma fmap_zip_with_ext {A B C D} (f g : A → B → C) (h : C → D)
    (l : list A) (k : list B) :
  (∀ x y, h (f x y) = h (g x y)) →
  h <$> zip_with f l k = h <$> zip_with g l k.
Proof.
  intros Hext. revert k.
  induction l as [|x l IH]; intros [|y k]; try done.
  cbn [zip_with]. rewrite !fmap_cons, Hext. f_equal. apply IH.
Qed.

(** X7.  A flat list is treated as one group whose results are unwrapped:
    [predict_batch] on the flat list returns the Documents [docs] one by one,
    on the list holding that one group it returns the single entry [docs],
    and both leave the same state behind (same collaborator calls, same
    advisory). *)
Theorem flat_list_is_one_group_unwrapped self d ds gsa bsa w :
  engine_ok self → config_ok self →
  ∃ docs,
    (predict_batch self (FlatGroup (d :: ds)) gsa bsa w).1
    = Return (RDocument <$> docs)
    ∧ (predict_batch self (GroupList [d :: ds]) gsa bsa w).1
      = Return [RDocuments docs]
    ∧ (predict_batch self (FlatGroup (d :: ds)) gsa bsa w).2
      = (predict_batch self (GroupList [d :: ds]) gsa bsa w).2.
Proof.
  intros Hengine Hconfig.
  assert (¬ Forall (λ g : list Document, g = []) [d :: ds]) as Hsome
    by (by inversion 1).
  rewrite predict_batch_FlatGroup by done.
  destruct (default (generate_single_summary self) gsa) eqn:Hmode.
  - rewrite predict_batch_GroupList_merged by done.
    unfold predict_contexts. cbn [fst snd fmap list_fmap].
    destruct (engine_single self
                (pipeline_args self (Some (default (batch_size self) bsa)))
                (str_join (separator_for_single_summary self)
                   (content d :: (content <$> ds))) Hengine) as [summary Hsummary].
    cbn [fmap list_fmap] in Hsummary. rewrite Hsummary.
    by exists [summary_document summary
                 (str_join (separator_for_single_summary self)
                    (content d :: (content <$> ds)))].
  - rewrite predict_batch_GroupList_per_document by done.
    unfold predict_contexts. cbn [fst snd].
    change ((λ g : list Document, content <$> g) <$> [d :: ds])
      with [content <$> d :: ds].
    change (mjoin [content <$> d :: ds]) with ((content <$> d :: ds) ++ []).
    rewrite app_nil_r.
    set (contexts := content <$> d :: ds).
    set (summaries := summarizer self _ contexts).
    assert (length summaries = length (d :: ds)) as Hlen
      by (by unfold summaries; rewrite Hengine; unfold contexts; rewrite length_fmap).
    exists ((λ '(s, c), summary_document s c) <$> zip summaries contexts).
    split; [|split; [|done]].
    + f_equal. rewrite <-list_fmap_compose. apply list_fmap_ext. by intros _ [s c] _.
    + change (length <$> [d :: ds]) with [length (d :: ds)].
      cbn [reshape zip_with fmap list_fmap]. rewrite take_ge by lia. done.
Qed.

Lemma flat_list_is_one_group_unwrapped_witness :
  ∃ docs,
    (predict_batch demo (FlatGroup [doc_abc; doc_def]) None None initial_world).1
    = Return (RDocument <$> docs)
    ∧ (predict_batch demo (GroupList [[doc_abc; doc_def]]) None None
         initial_world).1
      = Return [RDocuments docs]
    ∧ (predict_batch demo (FlatGroup [doc_abc; doc_def]) None None initial_world).2
      = (predict_batch demo (GroupList [[doc_abc; doc_def]]) None None
           initial_world).2.
Proof.
  exact (flat_list_is_one_group_unwrapped demo doc_abc [doc_def] None None
           initial_world demo_engine_ok demo_config_ok).
Defined.

(** X8.  On a flat list, and with an engine whose summaries do not depend on
    the [batch_size] it is given, [predict_batch] returns the summaries
    [predict] returns, in the same order and with the same [context]; in
    merged mode the Documents are the same altogether. *)
Theorem predict_batch_flat_agrees_with_predict self d ds gsa bsa w :
  engine_ok self → config_ok self →
  let merged := default (generate_single_summary self) gsa in
  let contexts := predict_contexts self (d :: ds) merged in
  summarizer self (pipeline_args self (Some (default (batch_size self) bsa))) contexts
  = summarizer self (pipeline_args self None) contexts →
  ∃ results docs,
    (predict self (d :: ds) gsa w).1 = Return results
    ∧ (predict_batch self (FlatGroup (d :: ds)) gsa bsa w).1
      = Return (RDocument <$> docs)
    ∧ content <$> results = content <$> docs
    ∧ (λ r, meta r !! "context") <$> results = (λ r, meta r !! "context") <$> docs
    ∧ (merged = true → results = docs).
Proof.
  intros Hengine Hconfig. cbv zeta. intros Hsame.
  rewrite predict_batch_FlatGroup by done. rewrite Hsame.
  rewrite predict_run.
  rewrite bool_decide_eq_false_2 by (unfold config_ok in Hconfig; lia).
  rewrite bool_decide_eq_false_2 by done.
  cbv zeta. cbn [fst].
  set (args := pipeline_args self None) in *.
  destruct (default (generate_single_summary self) gsa) eqn:Hmode.
  - unfold predict_contexts in *.
    destruct (engine_single self args
                (str_join (separator_for_single_summary self) (content <$> d :: ds))
                Hengine) as [summary Hsummary].
    rewrite Hsummary.
    exists [summary_document summary
              (str_join (separator_for_single_summary self) (content <$> d :: ds))].
    by exists [summary_document summary
                 (str_join (separator_for_single_summary self) (content <$> d :: ds))].
  - unfold predict_contexts in *.
    rewrite predict_result_per_document.
    eexists.
    exists ((λ '(s, c), summary_document s c)
              <$> zip (summarizer self args (content <$> d :: ds))
                      (content <$> d :: ds)).
    split; [reflexivity|]. split.
    { f_equal. rewrite <-list_fmap_compose. apply list_fmap_ext. by intros _ [s c] _. }
    rewrite batch_documents_zip. split; [|split; [|done]].
    + by apply fmap_zip_with_ext.
    + apply fmap_zip_with_ext. intros s d'. cbn [meta summary_document].
      by rewrite lookup_insert_eq, lookup_singleton_eq.
Qed.

Lemma predict_batch_flat_agrees_with_predict_witness :
  ∃ results docs,
    (predict demo [doc_abc; doc_tiny] None initial_world).1 = Return results
    ∧ (predict_batch demo (FlatGroup [doc_abc; doc_tiny]) None None
         initial_world).1
      = Return (RDocument <$> docs)
    ∧ content <$> results = content <$> docs
    ∧ (λ r, meta r !! "context") <$> results = (λ r, meta r !! "context") <$> docs
    ∧ (false = true → results = docs).
Proof.
  exact (predict_batch_flat_agrees_with_predict demo doc_abc [doc_tiny] None None
           initial_world demo_engine_ok demo_config_ok eq_refl).
Defined.

(** ** Elements that are not Documents *)

Lemma flat_contents_documents_of documents :
  flat_contents documents = content <$> documents_of documents.
Proof.
  unfold flat_contents, documents_of.
  induction documents as [|[d|l|] documents IH]; [done|..|done|done].
  cbn. by f_equal.
Qed.

Lemma group_contents_group_documents docs :
  group_contents docs = content <$> group_documents docs.
Proof.
  unfold group_contents, group_documents.
  induction docs as [|[d|] docs IH]; [done|..|done].
  cbn. by f_equal.
Qed.

Lemma nested_contents_groups_of documents :
  nested_contents documents
  = (λ g : list Document, content <$> g) <$> groups_of documents.
Proof.
  unfold nested_contents, groups_of.
  induction documents as [|[d|l|] documents IH]; [done|done|..|done].
  cbn. rewrite group_contents_group_documents. by f_equal.
Qed.

(** X9.  When the list given to [predict_batch] starts with a Document,
    every element that is not a Document is ignored: the call behaves, in
    outcome and in state, as on the flat list of the Documents alone. *)
Theorem predict_batch_ignores_non_documents self documents gsa bsa w :
  is_single_doc_list documents = true →
  predict_batch self documents gsa bsa w
  = predict_batch self (FlatGroup (documents_of documents)) gsa bsa w.
Proof.
  intros Hsingle.
  destruct documents as [|[d| |] documents]; try done.
  rewrite !predict_batch_run.
  change (documents_of (IDocument d :: documents))
    with (d :: documents_of documents).
  rewrite nothing_to_summarize_FlatGroup, single_doc_list_FlatGroup.
  change (nothing_to_summarize (IDocument d :: documents)) with false.
  change (is_single_doc_list (IDocument d :: documents)) with true.
  assert (∀ gss, build_spans self (IDocument d :: documents) gss true
                 = build_spans self (FlatGroup (d :: documents_of documents)) gss true)
    as Hspans.
  { intros gss. unfold build_spans.
    rewrite flat_contents_documents_of, flat_contents_FlatGroup. done. }
  cbv zeta. by rewrite Hspans.
Qed.

Lemma predict_batch_ignores_non_documents_witness :
  predict_batch demo [IDocument doc_abc; IOther; IList [EDocument doc_def];
                      IDocument doc_tiny] None None initial_world
  = predict_batch demo (FlatGroup [doc_abc; doc_tiny]) None None initial_world.
Proof.
  apply (predict_batch_ignores_non_documents demo
           [IDocument doc_abc; IOther; IList [EDocument doc_def];
            IDocument doc_tiny] None None initial_world).
  reflexivity.
Defined.

(** X10.  When the list does not start with a Document, [predict_batch]
    works on its lists only, and inside a list on its Documents only.  If
    the empty check lets the list through and some list holds a Document, the
    call behaves as on the list of groups cut down to their Documents. *)
Theorem predict_batch_ignores_stray_elements self documents gsa bsa w :
  is_single_doc_list documents = false →
  nothing_to_summarize documents = false →
  ¬ Forall (λ g, g = []) (groups_of documents) →
  predict_batch self documents gsa bsa w
  = predict_batch self (GroupList (groups_of documents)) gsa bsa w.
Proof.
  intros Hsingle Hinput Hsome.
  rewrite !predict_batch_run.
  rewrite Hinput, Hsingle, single_doc_list_GroupList.
  rewrite nothing_to_summarize_GroupList, (bool_decide_eq_false_2 _ Hsome).
  assert (∀ gss, build_spans self documents gss false
                 = build_spans self (GroupList (groups_of documents)) gss false)
    as Hspans.
  { intros gss. unfold build_spans.
    by rewrite nested_contents_groups_of, nested_contents_GroupList. }
  cbv zeta. by rewrite Hspans.
Qed.

Lemma predict_batch_ignores_stray_elements_witness :
  predict_batch demo [IList [EDocument doc_abc; ENotDocument]; IOther;
                      IDocument doc_def; IList [ENotDocument; EDocument doc_tiny]]
    None None initial_world
  = predict_batch demo (GroupList [[doc_abc]; [doc_tiny]]) None None initial_world.
Proof.
  apply (predict_batch_ignores_stray_elements demo
           [IList [EDocument doc_abc; ENotDocument]; IOther;
            IDocument doc_def; IList [ENotDocument; EDocument doc_tiny]]
           None None initial_world).
  - reflexivity.
  - reflexivity.
  - intros Hall. inversion Hall. discriminate.
Defined.

(** ** The state across calls *)

Lemma predict_calls self documents gsa w :
  calls (predict self documents gsa w).2
  = calls w ++
    if bool_decide (max_length self < min_length self)%Z
       || bool_decide (length documents = 0)
    then []
    else
      let contexts :=
        predict_contexts self documents
          (default (generate_single_summary self) gsa) in
      [TokenizerCall contexts; SummarizerCall (pipeline_args self None) contexts].
Proof.
  rewrite predict_run.
  destruct (bool_decide (max_length self < min_length self)%Z);
    [by rewrite app_nil_r|].
  destruct (bool_decide (length documents = 0)); [by rewrite app_nil_r|].
  cbv zeta. cbn [orb snd]. apply calls_after_predict.
Qed.

Lemma predict_batch_calls self documents gsa bsa w :
  calls (predict_batch self documents gsa bsa w).2
  = calls w ++
    if bool_decide (max_length self < min_length self)%Z
       || nothing_to_summarize documents
    then []
    else
      let contexts :=
        (build_spans self documents (default (generate_single_summary self) gsa)
           (is_single_doc_list documents)).1 in
      [TokenizerCall contexts;
       SummarizerCall (pipeline_args self (Some (default (batch_size self) bsa)))
         contexts].
Proof.
  rewrite predict_batch_run.
  destruct (bool_decide (max_length self < min_length self)%Z);
    [by rewrite app_nil_r|].
  destruct (nothing_to_summarize documents); [by rewrite app_nil_r|].
  cbv zeta. cbn [orb]. rewrite build_result_world. apply calls_after_batch.
Qed.

Lemma run_call_grows w c :
  print_log w ⊆ print_log (run_call w c)
  ∧ logged w `prefix_of` logged (run_call w c)
  ∧ calls w `prefix_of` calls (run_call w c).
Proof.
  destruct c as [[self documents gsa]|self documents gsa bsa];
    unfold run_call, run_predict;
    cbn [call_self call_documents call_generate_single_summary].
  - destruct (predict_log self documents gsa w) as [Hlog Hset].
    cbv zeta in Hlog, Hset. rewrite Hlog, Hset, predict_calls.
    split; [|split; by apply prefix_app_r].
    destruct (predict_overflows _); [|done]. apply union_subseteq_r.
  - destruct (predict_batch_log self documents gsa bsa w) as [Hlog Hset].
    rewrite Hlog, Hset, predict_batch_calls.
    split; [done|split; by apply prefix_app_r].
Qed.

(** X11.  Over any sequence of calls to [predict] and [predict_batch],
    failing calls included, nothing is ever taken back: [self.print_log]
    only gains texts, and the log and the sequence of collaborator calls are
    only extended at the end. *)
Theorem state_only_grows cs w :
  print_log w ⊆ print_log (lifetime cs w)
  ∧ logged w `prefix_of` logged (lifetime cs w)
  ∧ calls w `prefix_of` calls (lifetime cs w).
Proof.
  revert w. induction cs as [|c cs IH]; intros w; [done|].
  change (lifetime (c :: cs) w) with (lifetime cs (run_call w c)).
  destruct (run_call_grows w c) as (Hset & Hlog & Hcalls).
  destruct (IH (run_call w c)) as (Hset' & Hlog' & Hcalls').
  split; [|split]; by etrans.
Qed.

(** X12.  [predict] remembers the advisories it has logged, [predict_batch]
    neither remembers nor looks: two [predict] calls with a span that is too
    long log the advisory once, two such [predict_batch] calls log it twice,
    and [predict_batch] logs it again right after [predict] has. *)
Theorem advisory_repeats_in_predict_batch_only
    self documents gsa items gsa' bsa w :
  predict_overflows (mkPredictCall self documents gsa) = true →
  predict_batch_overflows self items gsa' = true →
  truncation_warning self ∉ print_log w →
  let m := truncation_warning self in
  let once := (predict self documents gsa w).2 in
  let batch_once := (predict_batch self items gsa' bsa w).2 in
  logged (predict self documents gsa once).2 = logged w ++ [m]
  ∧ logged (predict_batch self items gsa' bsa batch_once).2 = logged w ++ [m; m]
  ∧ logged (predict_batch self items gsa' bsa once).2 = logged w ++ [m; m].
Proof.
  intros Hover Hbatch Hfresh. cbv zeta.
  destruct (predict_log self documents gsa w) as [Hlog Hset].
  cbv zeta in Hlog, Hset.
  rewrite Hover, (bool_decide_eq_false_2 _ Hfresh) in Hlog. rewrite Hover in Hset.
  cbn [andb negb] in Hlog.
  split; [|split].
  - destruct (predict_log self documents gsa (predict self documents gsa w).2)
      as [-> _].
    rewrite Hover, Hset, Hlog.
    rewrite bool_decide_eq_true_2 by set_solver. cbn [andb negb].
    by rewrite app_nil_r.
  - destruct (predict_batch_log self items gsa' bsa
                (predict_batch self items gsa' bsa w).2) as [-> _].
    destruct (predict_batch_log self items gsa' bsa w) as [-> _].
    by rewrite Hbatch, <-app_assoc.
  - destruct (predict_batch_log self items gsa' bsa
                (predict self documents gsa w).2) as [-> _].
    by rewrite Hbatch, Hlog, <-app_assoc.
Qed.

Lemma advisory_repeats_in_predict_batch_only_witness :
  let m := truncation_warning demo in
  let once := (predict demo [doc_abc] None initial_world).2 in
  let batch_once :=
    (predict_batch demo (FlatGroup [doc_abc]) None None initial_world).2 in
  logged (predict demo [doc_abc] None once).2 = [m]
  ∧ logged (predict_batch demo (FlatGroup [doc_abc]) None None batch_once).2 = [m; m]
  ∧ logged (predict_batch demo (FlatGroup [doc_abc]) None None once).2 = [m; m].
Proof.
  apply (advisory_repeats_in_predict_batch_only demo [doc_abc] None
           (FlatGroup [doc_abc]) None None initial_world).
  - reflexivity.
  - reflexivity.
  - cbn. apply not_elem_of_empty.
Defined.

(** ** The tokenizer is advisory only *)

Lemma build_result_outcome single_doc_list groups w w' :
  (build_result single_doc_list groups w).1
  = (build_result single_doc_list groups w').1.
Proof.
  induction groups as [|[sg cg] rest IH]; [done|].
  cbn [build_result]. rewrite !run_bind. unfold result_entry.
  destruct single_doc_list.
  - destruct (cur_summaries sg cg) as [|first ?]; [done|].
    rewrite !run_ret, !run_bind.
    destruct (build_result true rest w) as [[res|e] w1],
             (build_result true rest w') as [[res'|e'] w1']; cbn in IH; by simplify_eq.
  - rewrite !run_ret, !run_bind.
    destruct (build_result false rest w) as [[res|e] w1],
             (build_result false rest w') as [[res'|e'] w1']; cbn in IH; by simplify_eq.
Qed.

(** X13.  The tokenizer and its limit decide the advisory and nothing else:
    with another tokenizer and another limit, [predict] and [predict_batch]
    have the same outcome (results or error) and make the same collaborator
    calls with the same spans. *)
Theorem tokenizer_never_changes_results self tok limit w :
  (∀ documents gsa,
     (predict (with_tokenizer self tok limit) documents gsa w).1
     = (predict self documents gsa w).1
     ∧ calls (predict (with_tokenizer self tok limit) documents gsa w).2
       = calls (predict self documents gsa w).2)
  ∧ (∀ documents gsa bsa,
       (predict_batch (with_tokenizer self tok limit) documents gsa bsa w).1
       = (predict_batch self documents gsa bsa w).1
       ∧ calls (predict_batch (with_tokenizer self tok limit) documents gsa bsa w).2
         = calls (predict_batch self documents gsa bsa w).2).
Proof.
  split.
  - intros documents gsa. split; [|by rewrite !predict_calls].
    rewrite !predict_run. cbn [max_length min_length with_tokenizer].
    destruct (bool_decide (max_length self < min_length self)%Z); [done|].
    by destruct (bool_decide (length documents = 0)).
  - intros documents gsa bsa. split; [|by rewrite !predict_batch_calls].
    rewrite !predict_batch_run. cbn [max_length min_length with_tokenizer].
    destruct (bool_decide (max_length self < min_length self)%Z); [done|].
    destruct (nothing_to_summarize documents); [done|].
    cbv zeta. apply build_result_outcome.
Qed.

(** ** Where the results come from *)

Lemma elem_of_reshape {A} (szs : list nat) (l g : list A) x :
  g ∈ reshape szs l → x ∈ g → x ∈ l.
Proof.
  revert l. induction szs as [|sz szs IH]; intros l Hg Hx.
  - by apply elem_of_nil in Hg.
  - cbn [reshape] in Hg. apply elem_of_cons in Hg as [->|Hg].
    + by eapply subseteq_take.
    + eapply subseteq_drop. by eapply IH.
Qed.

Lemma build_result_documents single_doc_list groups w entries e r :
  (build_result single_doc_list groups w).1 = Return entries →
  e ∈ entries → r ∈ entry_documents e →
  ∃ sg cg, (sg, cg) ∈ groups ∧ r ∈ cur_summaries sg cg.
Proof.
  revert entries.
  induction groups as [|[sg cg] rest IH]; intros entries Hrun He Hr.
  - cbn in Hrun. injection Hrun as <-. by apply elem_of_nil in He.
  - cbn [build_result] in Hrun. rewrite run_bind in Hrun.
    unfold result_entry in Hrun.
    destruct single_doc_list.
    + destruct (cur_summaries sg cg) as [|first others] eqn:Hcur; [done|].
      rewrite run_ret, run_bind in Hrun.
      destruct (build_result true rest w) as [[res|err] w1] eqn:Hrest; [|done].
      rewrite run_ret in Hrun. cbn [fst] in Hrun. injection Hrun as <-.
      apply elem_of_cons in He as [->|He].
      * exists sg, cg. split; [apply list_elem_of_here|].
        cbn in Hr. apply list_elem_of_singleton in Hr as ->.
        rewrite Hcur. apply list_elem_of_here.
      * destruct (IH res eq_refl He Hr) as (sg' & cg' & Hin & Hr').
        exists sg', cg'. split; [by apply list_elem_of_further|done].
    + rewrite run_ret, run_bind in Hrun.
      destruct (build_result false rest w) as [[res|err] w1] eqn:Hrest; [|done].
      rewrite run_ret in Hrun. cbn [fst] in Hrun. injection Hrun as <-.
      apply elem_of_cons in He as [->|He].
      * exists sg, cg. split; [apply list_elem_of_here|done].
      * destruct (IH res eq_refl He Hr) as (sg' & cg' & Hin & Hr').
        exists sg', cg'. split; [by apply list_elem_of_further|done].
Qed.

(** X14.  Every Document [predict_batch] returns, for whatever input and
    engine, is made of engine output and submitted text only: its content is
    one of the summaries the engine returned, and its metadata is the one
    field [context], holding one of the spans that were submitted. *)
Theorem predict_batch_results_come_from_the_engine
    self documents gsa bsa w entries e r :
  (predict_batch self documents gsa bsa w).1 = Return entries →
  e ∈ entries → r ∈ entry_documents e →
  let contexts :=
    (build_spans self documents (default (generate_single_summary self) gsa)
       (is_single_doc_list documents)).1 in
  let args := pipeline_args self (Some (default (batch_size self) bsa)) in
  content r ∈ summarizer self args contexts
  ∧ ∃ context, context ∈ contexts ∧ meta r = {[ "context" := MStr context ]}.
Proof.
  intros Hrun He Hr. cbv zeta. rewrite predict_batch_run in Hrun.
  destruct (bool_decide (max_length self < min_length self)%Z); [done|].
  destruct (nothing_to_summarize documents); [done|].
  cbv zeta in Hrun.
  destruct (build_result_documents _ _ _ _ _ _ Hrun He Hr) as (sg & cg & Hin & Hdoc).
  unfold cur_summaries in Hdoc.
  apply list_elem_of_fmap in Hdoc as ([s c] & -> & Hzip).
  pose proof (elem_of_zip_l _ _ _ _ Hin) as Hsg.
  pose proof (elem_of_zip_r _ _ _ _ Hin) as Hcg.
  pose proof (elem_of_zip_l _ _ _ _ Hzip) as Hs.
  pose proof (elem_of_zip_r _ _ _ _ Hzip) as Hc.
  cbn [content meta]. split.
  - by eapply elem_of_reshape.
  - exists c. split; [by eapply elem_of_reshape|done].
Qed.

Lemma predict_batch_results_come_from_the_engine_witness :
  content (summary_document "ti" "tiny")
    ∈ prefix_engine (pipeline_args demo (Some 16%Z)) ["A. B. C."; "tiny"]
  ∧ ∃ context,
      context ∈ ["A. B. C."; "tiny"]
      ∧ meta (summary_document "ti" "tiny") = {[ "context" := MStr context ]}.
Proof.
  apply (predict_batch_results_come_from_the_engine demo
           (GroupList [[doc_abc]; [doc_tiny]]) None None initial_world
           [RDocuments [summary_document "A." "A. B. C."];
            RDocuments [summary_document "ti" "tiny"]]
           (RDocuments [summary_document "ti" "tiny"])
           (summary_document "ti" "tiny")).
  - vm_compute. reflexivity.
  - apply list_elem_of_further, list_elem_of_here.
  - apply list_elem_of_here.
Defined.

(** ** The empty check counts every element *)

Lemma reshape_zeros {A B} (gs : list B) (l : list A) :
  reshape ((λ _, 0) <$> gs) l = (λ _, []) <$> gs.
Proof.
  induction gs as [|g gs IH]; [done|].
  rewrite !fmap_cons. cbn [reshape]. by rewrite take_0, drop_0, IH.
Qed.

Lemma join_empties {A B} (gs : list B) :
  mjoin ((λ _, @nil A) <$> gs) = [].
Proof. induction gs as [|g gs IH]; [done|]. by rewrite fmap_cons. Qed.

Lemma empty_groups_entries {B} (gs : list B) :
  (λ '(sg, cg), RDocuments (cur_summaries sg cg))
    <$> zip ((λ _, []) <$> gs) ((λ _, []) <$> gs)
  = (λ _, RDocuments []) <$> gs.
Proof.
  induction gs as [|g gs IH]; [done|].
  rewrite !fmap_cons. cbn [zip_with]. by rewrite fmap_cons, IH.
Qed.

(** X15.  The empty check of [predict_batch] looks at the length of the
    lists, the spans are built from their Documents only.  A list of lists
    that holds elements but no Document gets past the check: in per-document
    mode the tokenizer and the engine are called with no span at all and
    every list comes back as an empty list of results, without any error. *)
Theorem non_documents_pass_the_empty_check self documents gsa bsa w :
  config_ok self →
  is_single_doc_list documents = false →
  nothing_to_summarize documents = false →
  Forall (λ g, g = []) (groups_of documents) →
  default (generate_single_summary self) gsa = false →
  let args := pipeline_args self (Some (default (batch_size self) bsa)) in
  (predict_batch self documents gsa bsa w).1
  = Return ((λ _, RDocuments []) <$> groups_of documents)
  ∧ calls (predict_batch self documents gsa bsa w).2
    = calls w ++ [TokenizerCall []; SummarizerCall args []].
Proof.
  intros Hconfig Hsingle Hinput Hempty Hmode. cbv zeta.
  unfold config_ok in Hconfig.
  assert ((λ g : list Document, content <$> g) <$> groups_of documents
          = (λ _, []) <$> groups_of documents) as Hcontents.
  { apply Forall_fmap_ext. eapply Forall_impl; [exact Hempty|].
    by intros g ->. }
  assert (build_spans self documents false false
          = ([], (λ _, 0) <$> groups_of documents)) as Hspans.
  { unfold build_spans. rewrite nested_contents_groups_of, Hcontents.
    by rewrite join_empties, <-list_fmap_compose. }
  split.
  - rewrite predict_batch_run, bool_decide_eq_false_2, Hinput, Hsingle by lia.
    cbv zeta. rewrite Hmode, Hspans. cbn [fst snd].
    rewrite !reshape_zeros, build_result_lists. cbn [fst].
    by rewrite empty_groups_entries.
  - rewrite predict_batch_calls, bool_decide_eq_false_2, Hinput by lia.
    cbv zeta. cbn [orb]. by rewrite Hsingle, Hmode, Hspans.
Qed.

Lemma non_documents_pass_the_empty_check_witness :
  (predict_batch demo [IList [ENotDocument]; IList []] None None initial_world).1
  = Return [RDocuments []; RDocuments []]
  ∧ calls (predict_batch demo [IList [ENotDocument]; IList []] None None
             initial_world).2
    = [TokenizerCall []; SummarizerCall (pipeline_args demo (Some 16%Z)) []].
Proof.
  apply (non_documents_pass_the_empty_check demo [IList [ENotDocument]; IList []]
           None None initial_world demo_config_ok).
  - reflexivity.
  - reflexivity.
  - by repeat constructor.
  - reflexivity.
Defined.

(** ** Merging *)

Lemma string_app_assoc (a b c : string) : (a +:+ b) +:+ c = a +:+ b +:+ c.
Proof.
  induction a as [|x a IH]; [done|].
  change (String x ((a +:+ b) +:+ c) = String x (a +:+ b +:+ c)).
  by rewrite IH.
Qed.

Lemma str_join_app sep (a b : list string) :
  a ≠ [] → b ≠ [] →
  str_join sep (a ++ b) = str_join sep a +:+ sep +:+ str_join sep b.
Proof.
  intros Ha Hb. induction a as [|x a IH]; [done|].
  destruct a as [|y a].
  - destruct b as [|z b]; [done|]. reflexivity.
  - change (str_join sep ((x :: y :: a) ++ b))
      with (x +:+ sep +:+ str_join sep ((y :: a) ++ b)).
    rewrite IH by done.
    change (str_join sep (x :: y :: a)) with (x +:+ sep +:+ str_join sep (y :: a)).
    by rewrite !string_app_assoc.
Qed.

(** X16.  Merging follows the order of the documents and composes: the one
    span built in merged mode for a list made of two non-empty parts is the
    span of the first part, the separator, and the span of the second part. *)
Theorem merged_span_of_two_parts self (ds1 ds2 : list Document) :
  ds1 ≠ [] → ds2 ≠ [] →
  let sep := separator_for_single_summary self in
  predict_contexts self (ds1 ++ ds2) true
  = [str_join sep (content <$> ds1) +:+ sep +:+ str_join sep (content <$> ds2)]
  ∧ (build_spans self (FlatGroup (ds1 ++ ds2)) true true).1
    = [str_join sep (content <$> ds1) +:+ sep +:+ str_join sep (content <$> ds2)]
  ∧ (build_spans self (GroupList [ds1 ++ ds2]) true false).1
    = [str_join sep (content <$> ds1) +:+ sep +:+ str_join sep (content <$> ds2)].
Proof.
  intros H1 H2. cbv zeta.
  assert (str_join (separator_for_single_summary self) (content <$> ds1 ++ ds2)
          = str_join (separator_for_single_summary self) (content <$> ds1)
            +:+ separator_for_single_summary self
            +:+ str_join (separator_for_single_summary self) (content <$> ds2))
    as Hjoin.
  { rewrite fmap_app. apply str_join_app; by destruct ds1, ds2. }
  split; [|split].
  - unfold predict_contexts. by rewrite Hjoin.
  - unfold build_spans. cbn [fst]. by rewrite flat_contents_FlatGroup, Hjoin.
  - rewrite build_spans_GroupList. cbn [fst fmap list_fmap].
    by rewrite Hjoin.
Qed.

Lemma merged_span_of_two_parts_witness :
  predict_contexts demo ([doc_abc; doc_def] ++ [doc_tiny]) true
  = ["A. B. C. D. E. F." +:+ " " +:+ "tiny"]
  ∧ (build_spans demo (FlatGroup ([doc_abc; doc_def] ++ [doc_tiny])) true true).1
    = ["A. B. C. D. E. F." +:+ " " +:+ "tiny"]
  ∧ (build_spans demo (GroupList [[doc_abc; doc_def] ++ [doc_tiny]]) true false).1
    = ["A. B. C. D. E. F." +:+ " " +:+ "tiny"].
Proof.
  apply (merged_span_of_two_parts demo [doc_abc; doc_def] [doc_tiny]);
    discriminate.
Defined.
